(** * Columnar statistics and preprocessing: a shallow embedding

    This development embeds [food_statistics.py] (class [Statistics]) and,
    of [preprocessing.py], the classes [MissingValueProcessor], [Scaler]
    and [Encoder] and the construction and the missing-value methods of
    the facade [Preprocessing].

    Modelling conventions.
    - A cell is a Python object of one of the kinds the toolkit handles:
      [None], [bool], [int], [float] or [str].  Python integers are
      unbounded, so [int] is [Z].  A [float] is represented by the rational
      number it denotes and float arithmetic is exact: rounding, overflow,
      infinities and NaN are outside the model.
    - [==] is [py_eq]: numbers (booleans included) compare by value, so
      [True == 1 == 1.0]; strings compare with strings; [None] only equals
      [None].
    - A raised exception is [Raise e]; exception messages are dropped.
    - The dataset is a dictionary from column names to lists of cells,
      a [gmap string (list value)].  Dictionaries keyed by cells (frequency
      tables, category maps) are insertion-ordered association lists
      looked up with [py_eq], as Python dictionaries are. *)

From Stdlib Require Import ZArith QArith Lia Lqa.
From stdpp Require Import base option list gmap strings pretty.

Local Open Scope Z_scope.

(** ** Cells *)

Inductive value : Type :=
| VNone
| VBool (b : bool)
| VInt (z : Z)
| VFloat (q : Q)
| VStr (s : string).

(** The number a cell denotes, for [bool], [int] and [float] cells. *)
Definition num_of (v : value) : option Q :=
  match v with
  | VBool b => Some (if b then 1%Q else 0%Q)
  | VInt z => Some (inject_Z z)
  | VFloat q => Some q
  | VNone | VStr _ => None
  end.

(** [v is None]. *)
Definition is_none (v : value) : bool :=
  match v with VNone => true | _ => false end.

(** [isinstance(v, (int, float))]; [bool] is a subclass of [int]. *)
Definition is_numeric (v : value) : bool :=
  match v with
  | VBool _ | VInt _ | VFloat _ => true
  | VNone | VStr _ => false
  end.

(** [a == b]. *)
Definition py_eq (a b : value) : bool :=
  match a, b with
  | VNone, VNone => true
  | VStr s, VStr t => String.eqb s t
  | _, _ =>
      match num_of a, num_of b with
      | Some x, Some y => Qeq_bool x y
      | _, _ => false
      end
  end.

(** ** Exceptions and results *)

Inductive exn : Type :=
| TypeError
| ValueError
| KeyError
| ZeroDivisionError.

Inductive result (A : Type) : Type :=
| Ok (a : A)
| Raise (e : exn).
Arguments Ok {A} a.
Arguments Raise {A} e.

Definition bind {A B : Type} (m : result A) (f : A → result B) : result B :=
  match m with
  | Ok a => f a
  | Raise e => Raise e
  end.

Notation "x <- m ;; k" := (bind m (fun x => k))
  (at level 100, m at next level, right associativity, only parsing).

(** What a method hands back to its caller: a cell, or an exception
    instance that was returned as an ordinary object. *)
Inductive object : Type :=
| OValue (v : value)
| OException (e : exn).

(** [bool(o)]: exception instances are truthy like any plain object. *)
Definition truthy (o : object) : bool :=
  match o with
  | OException _ => true
  | OValue VNone => false
  | OValue (VBool b) => b
  | OValue (VStr s) => negb (String.eqb s "")
  | OValue v =>
      match num_of v with
      | Some x => negb (Qeq_bool x 0)
      | None => true
      end
  end.

(** ** Arithmetic on cells *)

(** [isinstance(v, int)], booleans included, with the integer denoted. *)
Definition int_of (v : value) : option Z :=
  match v with
  | VBool b => Some (if b then 1 else 0)
  | VInt z => Some z
  | _ => None
  end.

(** A binary arithmetic operator on numbers: two integers give an
    integer, any other pair of numbers gives a float, anything else is
    a [TypeError]. *)
Definition py_arith (fz : Z → Z → Z) (fq : Q → Q → Q) (a b : value)
  : result value :=
  match int_of a, int_of b with
  | Some x, Some y => Ok (VInt (fz x y))
  | _, _ =>
      match num_of a, num_of b with
      | Some x, Some y => Ok (VFloat (fq x y))
      | _, _ => Raise TypeError
      end
  end.

Definition py_add : value → value → result value := py_arith Z.add Qplus.
Definition py_sub : value → value → result value := py_arith Z.sub Qminus.
Definition py_mul : value → value → result value := py_arith Z.mul Qmult.

(** [a / b]: true division, always a float. *)
Definition py_truediv (a b : value) : result value :=
  match num_of a, num_of b with
  | Some x, Some y =>
      if Qeq_bool y 0 then Raise ZeroDivisionError else Ok (VFloat (x / y))
  | _, _ => Raise TypeError
  end.

(** [a < b]: defined between numbers and between strings. *)
Definition py_lt (a b : value) : result bool :=
  match a, b with
  | VStr s, VStr t => Ok (String.ltb s t)
  | _, _ =>
      match num_of a, num_of b with
      | Some x, Some y => Ok (negb (Qle_bool y x))
      | _, _ => Raise TypeError
      end
  end.

(** [sum(xs)], which starts from the integer 0. *)
Definition py_sum (xs : list value) : result value :=
  foldl (fun acc x => s <- acc;; py_add s x) (Ok (VInt 0)) xs.

(** ** Dictionaries keyed by cells *)

Section pydict.
Context {V : Type}.

(** [k in d]. *)
Fixpoint pd_mem (d : list (value * V)) (k : value) : bool :=
  match d with
  | [] => false
  | (k', _) :: d' => py_eq k' k || pd_mem d' k
  end.

(** [d.get(k)]. *)
Fixpoint pd_get (d : list (value * V)) (k : value) : option V :=
  match d with
  | [] => None
  | (k', v) :: d' => if py_eq k' k then Some v else pd_get d' k
  end.

(** [d[k]], a [KeyError] when the key is missing. *)
Definition pd_getitem (d : list (value * V)) (k : value) : result V :=
  match pd_get d k with
  | Some v => Ok v
  | None => Raise KeyError
  end.

(** [d[k] = v]: an existing entry keeps its key object and position,
    a new one goes last. *)
Fixpoint pd_set (d : list (value * V)) (k : value) (v : V)
  : list (value * V) :=
  match d with
  | [] => [(k, v)]
  | (k', v') :: d' =>
      if py_eq k' k then (k', v) :: d' else (k', v') :: pd_set d' k v
  end.
End pydict.

(** [sorted(xs)].  Python's sort is stable and only ever asks [x < y];
    it raises when a comparison it needs does.  A list of two or more
    cells is therefore sorted exactly when its cells are all numbers or
    all strings, and the stable insertion sort below raises in the same
    cases and returns the same list. *)
Fixpoint py_insert (x : value) (ordenados : list value)
  : result (list value) :=
  match ordenados with
  | [] => Ok [x]
  | y :: resto =>
      menor <- py_lt x y;;
      if (menor : bool) then Ok (x :: y :: resto)
      else r <- py_insert x resto;; Ok (y :: r)
  end.

Definition py_sorted (xs : list value) : result (list value) :=
  foldl (fun acc x => ordenados <- acc;; py_insert x ordenados) (Ok []) xs.

(** [{x for x in xs}] listed in order of first insertion: a set keeps the
    first of several equal cells.  The order in which a set is iterated is
    unspecified, and both uses below sort it at once. *)
Definition py_set (xs : list value) : list value :=
  foldl (fun s x => if existsb (fun y => py_eq y x) s then s else s ++ [x])
        [] xs.

(** ** The dataset *)

(** [self.dataset[column]]. *)
Definition getitem (self : gmap string (list value)) (column : string)
  : result (list value) :=
  match self !! column with
  | Some valores => Ok valores
  | None => Raise KeyError
  end.

(** ** Exceptions of the built-ins

    Indexing a list out of range and taking the first item of an empty
    iterator raise exceptions the engine never raises itself.  The methods
    that index lists or iterate dictionaries end in an [outcome]. *)

Inductive error : Type :=
| Err (e : exn)
| IndexError
| StopIteration.

Inductive outcome (A : Type) : Type :=
| Return (a : A)
| Throw (e : error).
Arguments Return {A} a.
Arguments Throw {A} e.

Definition lift {A : Type} (r : result A) : outcome A :=
  match r with
  | Ok a => Return a
  | Raise e => Throw (Err e)
  end.

Definition obind {A B : Type} (m : outcome A) (f : A → outcome B)
  : outcome B :=
  match m with
  | Return a => f a
  | Throw e => Throw e
  end.

Notation "x <~ m ;; k" := (obind m (fun x => k))
  (at level 100, m at next level, right associativity, only parsing).

(** [l[i]] for [i >= 0]. *)
Definition py_index {A : Type} (l : list A) (i : nat) : outcome A :=
  match l !! i with
  | Some x => Return x
  | None => Throw IndexError
  end.

Module Statistics.

Definition _validate_column (self : gmap string (list value))
    (column : string) : result unit :=
  if decide (is_Some (self !! column)) then Ok () else Raise KeyError.

(** A call of [self._validate_column]: Python binds the positional
    arguments to the single parameter [column], and a call with any
    other number of arguments raises [TypeError] before the body runs. *)
Definition call_validate_column (self : gmap string (list value))
    (args : list string) : result unit :=
  match args with
  | [column] => _validate_column self column
  | _ => Raise TypeError
  end.

(** *** Construction *)

(** What a caller may pass for a column, and for the dataset itself. *)
Inductive raw_column : Type :=
| RList (xs : list value)
| RNotList.

Inductive raw_dataset : Type :=
| RDict (d : gmap string raw_column)
| RNotDict.

Definition as_list (valor : raw_column) : option (list value) :=
  match valor with
  | RList xs => Some xs
  | RNotList => None
  end.

(** [Statistics(dataset)]; the result is the stored [self.dataset]. *)
Definition __init__ (dataset : raw_dataset)
  : result (gmap string (list value)) :=
  match dataset with
  | RNotDict => Raise TypeError
  | RDict d =>
      match mapM as_list (map_to_list d).*2 with
      | None => Raise TypeError
      | Some colunas =>
          if bool_decide (d = ∅) then Raise ValueError
          else if bool_decide
                    (size (list_to_set (length <$> colunas) : gset nat) ≠ 1%nat)
          then Raise ValueError
          else Ok (omap as_list d)
      end
  end.

(** *** Aggregates *)

Definition mean (self : gmap string (list value)) (column : string)
  : result value :=
  _ <- _validate_column self column;;
  valores_coluna <- getitem self column;;
  let valores_validos := filter (fun v => negb (is_none v)) valores_coluna in
  if bool_decide (valores_validos = []) then Raise ValueError
  else
    soma <- py_sum valores_validos;;
    py_truediv soma (VInt (Z.of_nat (length valores_validos))).

(** The counting loop of [absolute_frequency], from the table so far. *)
Fixpoint absolute_frequency_loop (frequencia : list (value * Z))
    (valores_coluna : list value) : list (value * Z) :=
  match valores_coluna with
  | [] => frequencia
  | value :: resto =>
      absolute_frequency_loop
        (match pd_get frequencia value with
         | Some n => pd_set frequencia value (n + 1)
         | None => pd_set frequencia value 1
         end) resto
  end.

Definition absolute_frequency (self : gmap string (list value))
    (column : string) : result (list (value * Z)) :=
  _ <- _validate_column self column;;
  valores_coluna <- getitem self column;;
  if bool_decide (valores_coluna = []) then Raise ValueError
  else Ok (absolute_frequency_loop [] valores_coluna).

(** [max(xs)] on integers; [ValueError] on an empty argument. *)
Definition py_max_int (xs : list Z) : result Z :=
  match xs with
  | [] => Raise ValueError
  | x :: xs' => Ok (foldl (fun m y => if bool_decide (y > m) then y else m) x xs')
  end.

Definition mode (self : gmap string (list value)) (column : string)
  : result (list value) :=
  _ <- _validate_column self column;;
  valores_coluna <- getitem self column;;
  let valores_coluna := filter (fun v => negb (is_none v)) valores_coluna in
  if bool_decide (valores_coluna = []) then Raise ValueError
  else
    frequencias <- absolute_frequency self column;;
    numero_maximo_repeticoes <- py_max_int frequencias.*2;;
    let modas :=
      (filter (fun kv => bool_decide (kv.2 = numero_maximo_repeticoes))
              frequencias).*1 in
    Ok modas.

Definition covariance (self : gmap string (list value))
    (column_a column_b : string) : result value :=
  _ <- call_validate_column self [column_a; column_b];;
  valores_coluna_a <- getitem self column_a;;
  valores_coluna_b <- getitem self column_b;;
  if bool_decide (valores_coluna_a = []) || bool_decide (valores_coluna_b = [])
  then Raise ValueError
  else
    let pares_validos :=
      filter (fun ab => negb (is_none ab.1) && negb (is_none ab.2))
             (zip valores_coluna_a valores_coluna_b) in
    if bool_decide (pares_validos = []) then Raise ValueError
    else
      media_coluna_a <- mean self column_a;;
      media_coluna_b <- mean self column_b;;
      soma <- foldl (fun acc ab =>
                      s <- acc;;
                      desvio_a <- py_sub ab.1 media_coluna_a;;
                      desvio_b <- py_sub ab.2 media_coluna_b;;
                      produto <- py_mul desvio_a desvio_b;;
                      py_add s produto)
                   (Ok (VInt 0))
                   (zip valores_coluna_a valores_coluna_b);;
      let quantidade_pares := Z.of_nat (length valores_coluna_a) in
      py_truediv soma (VInt quantidade_pares).

(** *** Frequencies *)

(** The loop of [relative_frequency] over the items of the absolute
    frequency, from the table so far. *)
Fixpoint relative_frequency_loop (itens : list (value * Z))
    (numero_itens : Z) (frequencia_relativa : list (value * value))
  : result (list (value * value)) :=
  match itens with
  | [] => Ok frequencia_relativa
  | (chave, valor) :: resto =>
      if negb (pd_mem frequencia_relativa (VInt valor)) then
        proporcao <- py_truediv (VInt valor) (VInt numero_itens);;
        relative_frequency_loop resto numero_itens
          (pd_set frequencia_relativa chave proporcao)
      else relative_frequency_loop resto numero_itens frequencia_relativa
  end.

Definition relative_frequency (self : gmap string (list value))
    (column : string) : result (list (value * value)) :=
  frequencia_absoluta <- absolute_frequency self column;;
  valores_coluna <- getitem self column;;
  let numero_itens := Z.of_nat (length valores_coluna) in
  relative_frequency_loop frequencia_absoluta numero_itens [].

(** The running-sum loop of [cumulative_frequency] over the sorted keys,
    from the sum and the table so far. *)
Fixpoint cumulative_frequency_loop (frequencia : list (value * value))
    (chaves_ordenadas : list value) (soma : value)
    (frequencia_acumulada_relativa : list (value * value))
  : result (list (value * value)) :=
  match chaves_ordenadas with
  | [] => Ok frequencia_acumulada_relativa
  | chave :: resto =>
      parcela <- pd_getitem frequencia chave;;
      soma <- py_add soma parcela;;
      cumulative_frequency_loop frequencia resto soma
        (pd_set frequencia_acumulada_relativa chave soma)
  end.

Definition cumulative_frequency (self : gmap string (list value))
    (column : string) (frequency_method : string)
  : result (list (value * value)) :=
  _ <- _validate_column self column;;
  if negb (String.eqb frequency_method "absolute"
           || String.eqb frequency_method "relative")
  then Raise ValueError
  else
    frequencia <-
      (if String.eqb frequency_method "absolute" then
         f <- absolute_frequency self column;;
         Ok (prod_map id VInt <$> f)
       else relative_frequency self column);;
    chaves_ordenadas <- py_sorted frequencia.*1;;
    cumulative_frequency_loop frequencia chaves_ordenadas (VInt 0) [].

(** *** Conditional probability *)

(** The scan of [conditional_probability]:
    [for i in range(0, tamanho_lista - 1)] over adjacent cells, carrying
    [(evento_b, evento_a_b)]. *)
Fixpoint scan_pairs (valores_coluna : list value) (value1 value2 : value)
    (acc : Z * Z) : Z * Z :=
  match valores_coluna with
  | x :: ((y :: _) as rest) =>
      let '(evento_b, evento_a_b) := acc in
      let acc' :=
        if py_eq x value2 then
          (evento_b + 1,
           if py_eq y value1 then evento_a_b + 1 else evento_a_b)
        else acc in
      scan_pairs rest value1 value2 acc'
  | _ => acc
  end.

Definition conditional_probability (self : gmap string (list value))
    (column : string) (value1 value2 : value) : result object :=
  _ <- _validate_column self column;;
  valores_coluna <- getitem self column;;
  let tamanho_lista := Z.of_nat (length valores_coluna) in
  if bool_decide (tamanho_lista < 2) then
    Ok (OException KeyError)
  else
    let '(evento_b, evento_a_b) :=
      scan_pairs valores_coluna value1 value2 (0, 0) in
    if bool_decide (evento_b = 0) then
      Ok (OException KeyError)
    else
      q <- py_truediv (VInt evento_a_b) (VInt evento_b);;
      Ok (OValue q).

(** *** Median, variance, standard deviation, item set *)

(** [all(isinstance(v, (int, float)) for v in xs)]. *)
Definition all_numeric (xs : list value) : bool := forallb is_numeric xs.

Definition median (self : gmap string (list value)) (column : string)
  : outcome value :=
  _ <~ lift (_validate_column self column);;
  valores_coluna <~ lift (getitem self column);;
  let valores_validos := filter (fun v => negb (is_none v)) valores_coluna in
  if bool_decide (valores_validos = []) then Throw (Err ValueError)
  else if negb (all_numeric valores_validos) then Throw (Err TypeError)
  else
    let quantidade_valores := length valores_coluna in
    coluna_ordenada <~ lift (py_sorted valores_coluna);;
    let indice := (quantidade_valores / 2)%nat in
    if bool_decide (quantidade_valores mod 2 = 0)%nat then
      (* [indice - 1] is not negative here: the column has a cell *)
      a <~ py_index coluna_ordenada (indice - 1);;
      b <~ py_index coluna_ordenada indice;;
      soma <~ lift (py_add a b);;
      lift (py_truediv soma (VInt 2))
    else py_index coluna_ordenada indice.

(** [v ** 2]: an integer for an integer, a float for a float. *)
Definition py_square (v : value) : result value := py_mul v v.

Definition variance (self : gmap string (list value)) (column : string)
  : result value :=
  media_aritimetica <- mean self column;;
  _ <- _validate_column self column;;
  valores_coluna <- getitem self column;;
  let valores_validos := filter (fun v => negb (is_none v)) valores_coluna in
  if bool_decide (valores_validos = []) then Raise ValueError
  else
    soma <- foldl (fun acc valor =>
                    s <- acc;;
                    desvio <- py_sub valor media_aritimetica;;
                    quadrado <- py_square desvio;;
                    py_add s quadrado)
                 (Ok (VInt 0)) valores_coluna;;
    py_truediv soma (VInt (Z.of_nat (length valores_validos))).

Definition itemset (self : gmap string (list value)) (column : string)
  : result (list value) :=
  _ <- _validate_column self column;;
  valores_coluna <- getitem self column;;
  if bool_decide (valores_coluna = []) then Raise ValueError
  else Ok (py_set valores_coluna).

Section stdev.
(** [x ** 0.5] on a non-negative number is its square root, rounded to a
    float; the exact model of floats does not determine it, so it is a
    parameter.  (The variance it is applied to is never negative.) *)
Variable pow_half : Q → Q.

Definition py_pow_half (v : value) : result value :=
  match num_of v with
  | Some x => Ok (VFloat (pow_half x))
  | None => Raise TypeError
  end.

Definition stdev (self : gmap string (list value)) (column : string)
  : result value :=
  _ <- _validate_column self column;;
  valores_coluna <- getitem self column;;
  let valores_validos := filter (fun v => negb (is_none v)) valores_coluna in
  if bool_decide (valores_validos = []) then Raise ValueError
  else
    variancia <- variance self column;;
    py_pow_half variancia.
End stdev.

End Statistics.

(** ** Preprocessing *)

(** [min(xs)] and [max(xs)]: the first smallest (largest) item, found
    with [item < best] (respectively [item > best]); [ValueError] on an
    empty argument. *)
Definition py_min (xs : list value) : result value :=
  match xs with
  | [] => Raise ValueError
  | x :: xs' =>
      foldl (fun acc item =>
               melhor <- acc;;
               menor <- py_lt item melhor;;
               Ok (if (menor : bool) then item else melhor))
            (Ok x) xs'
  end.

Definition py_max (xs : list value) : result value :=
  match xs with
  | [] => Raise ValueError
  | x :: xs' =>
      foldl (fun acc item =>
               melhor <- acc;;
               maior <- py_lt melhor item;;
               Ok (if (maior : bool) then item else melhor))
            (Ok x) xs'
  end.

(** A loop that appends [f valor] for each [valor], stopping at the
    first exception. *)
Fixpoint for_each {A B : Type} (f : A → result B) (xs : list A)
  : result (list B) :=
  match xs with
  | [] => Ok []
  | x :: xs' => y <- f x;; ys <- for_each f xs';; Ok (y :: ys)
  end.

(** The preprocessing classes hold a reference to the dataset and mutate
    it in place.  A mutating method is a function from the dataset to the
    dataset it leaves behind, paired with [Ok ()] or the exception that
    interrupted it; writes made before an exception stay. *)

(** [columns] is the iteration order of the set passed by the caller;
    [[]] stands for both [None] and the empty set.  The keys of a Python
    dictionary come in insertion order, those of a [gmap] in the order of
    [map_to_list]. *)
Definition _get_target_columns (self : gmap string (list value))
    (columns : list string) : list string :=
  if bool_decide (columns = []) then (map_to_list self).*1 else columns.

Module Scaler.

(** The body of the loop of [minMax_scaler] for one column: [None] is
    [continue], [Some l] is the list assigned to the column. *)
Definition minMax_column (valores : list value)
  : result (option (list value)) :=
  let valores_numericos :=
    filter (fun v => is_numeric v && negb (is_none v)) valores in
  if bool_decide (valores_numericos = []) then Ok None
  else
    valor_minimo <- py_min valores_numericos;;
    valor_maximo <- py_max valores_numericos;;
    intervalo_valores <- py_sub valor_maximo valor_minimo;;
    if py_eq intervalo_valores (VInt 0) then
      Ok (Some ((fun valor =>
                   if is_numeric valor then VFloat 0 else valor) <$> valores))
    else
      valores_escalonados <-
        for_each (fun valor =>
                    if is_numeric valor then
                      diferenca <- py_sub valor valor_minimo;;
                      py_truediv diferenca intervalo_valores
                    else Ok valor) valores;;
      Ok (Some valores_escalonados).

Fixpoint minMax_loop (colunas_verificar : list string)
    (dataset : gmap string (list value))
  : gmap string (list value) * result unit :=
  match colunas_verificar with
  | [] => (dataset, Ok ())
  | coluna :: resto =>
      match valores <- getitem dataset coluna;; minMax_column valores with
      | Raise e => (dataset, Raise e)
      | Ok None => minMax_loop resto dataset
      | Ok (Some valores_escalonados) =>
          minMax_loop resto (<[coluna := valores_escalonados]> dataset)
      end
  end.

Definition minMax_scaler (self : gmap string (list value))
    (columns : list string) : gmap string (list value) * result unit :=
  minMax_loop (_get_target_columns self columns) self.

End Scaler.

Module Encoder.

(** [sorted({valor for valor in valores if valor is not None})]. *)
Definition categorias_de (valores : list value) : result (list value) :=
  py_sorted (py_set (filter (fun v => negb (is_none v)) valores)).

(** [{categoria: i for i, categoria in enumerate(categorias)}]. *)
Definition mapa_de (categorias : list value) : list (value * Z) :=
  foldl (fun mapa ic => pd_set mapa ic.2 ic.1) []
        (imap (fun i categoria => (Z.of_nat i, categoria)) categorias).

(** The body of the loop of [label_encode] for a column that exists. *)
Definition label_column (valores : list value) : result (list value) :=
  categorias <- categorias_de valores;;
  let mapa_categorias := mapa_de categorias in
  for_each (fun valor =>
              if is_none valor then Ok VNone
              else i <- pd_getitem mapa_categorias valor;; Ok (VInt i))
           valores.

Fixpoint label_encode (self : gmap string (list value))
    (columns : list string) : gmap string (list value) * result unit :=
  match columns with
  | [] => (self, Ok ())
  | coluna :: resto =>
      match self !! coluna with
      | None => label_encode self resto
      | Some valores =>
          match label_column valores with
          | Raise e => (self, Raise e)
          | Ok colunas_codificadas =>
              label_encode (<[coluna := colunas_codificadas]> self) resto
          end
      end
  end.

Section one_hot.
(** [str] of a float prints its shortest round-trip decimal, which the
    exact model of floats does not determine; it is a parameter. *)
Variable repr_float : Q → string.

(** [f"{categoria}"]. *)
Definition format_value (categoria : value) : string :=
  match categoria with
  | VNone => "None"
  | VBool true => "True"
  | VBool false => "False"
  | VInt z => pretty z
  | VFloat q => repr_float q
  | VStr s => s
  end.

(** [f"{coluna}_{categoria}"]. *)
Definition nova_coluna (coluna : string) (categoria : value) : string :=
  coluna +:+ "_" +:+ format_value categoria.

(** [[1 if valor == categoria else 0 for valor in valores]]. *)
Definition indicador (valores : list value) (categoria : value)
  : list value :=
  (fun valor => if py_eq valor categoria then VInt 1 else VInt 0)
    <$> valores.

(** The inner loop over the categories of one column. *)
Definition oneHot_fill (coluna : string) (valores : list value)
    (categorias : list value) (dataset : gmap string (list value))
  : gmap string (list value) :=
  foldl (fun d categoria =>
           <[nova_coluna coluna categoria := indicador valores categoria]> d)
        dataset categorias.

Fixpoint oneHot_encode (self : gmap string (list value))
    (columns : list string) : gmap string (list value) * result unit :=
  match columns with
  | [] => (self, Ok ())
  | coluna :: resto =>
      match valores <- getitem self coluna;;
            categorias <- categorias_de valores;;
            Ok (valores, categorias) with
      | Raise e => (self, Raise e)
      | Ok (valores, categorias) =>
          let self' := oneHot_fill coluna valores categorias self in
          (* del self.dataset[coluna] *)
          match self' !! coluna with
          | None => (self', Raise KeyError)
          | Some _ => oneHot_encode (delete coluna self') resto
          end
      end
  end.
End one_hot.

End Encoder.

Module MissingValueProcessor.

(** The keys of a Python dictionary are iterated in the order of their
    insertion, which a [gmap] does not record.  The methods below iterate
    the dataset, so they take that order as [chaves], the list of its keys. *)

(** [columns] is the iteration order of the set passed by the caller;
    [[]] stands for both [None] and the empty set. *)
Definition _get_target_columns (chaves : list string) (columns : list string)
  : list string :=
  if bool_decide (columns = []) then chaves else columns.

(** [self.dataset[coluna][i]]. *)
Definition cell (dataset : gmap string (list value)) (coluna : string)
    (i : nat) : outcome value :=
  valores <~ lift (getitem dataset coluna);;
  py_index valores i.

(** [any(self.dataset[coluna][i] is None for coluna in colunas)]: stops at
    the first null. *)
Fixpoint any_none (dataset : gmap string (list value))
    (colunas : list string) (i : nat) : outcome bool :=
  match colunas with
  | [] => Return false
  | coluna :: resto =>
      v <~ cell dataset coluna i;;
      if is_none v then Return true else any_none dataset resto i
  end.

(** [all(self.dataset[col][i] is not None for col in colunas)]: stops at
    the first null. *)
Fixpoint all_not_none (dataset : gmap string (list value))
    (colunas : list string) (i : nat) : outcome bool :=
  match colunas with
  | [] => Return true
  | col :: resto =>
      v <~ cell dataset col i;;
      if negb (is_none v) then all_not_none dataset resto i else Return false
  end.

(** [for coluna in self.dataset:
       novo_dicionario[coluna].append(self.dataset[coluna][i])]. *)
Fixpoint append_row (dataset : gmap string (list value))
    (chaves : list string) (i : nat)
    (novo_dicionario : gmap string (list value))
  : outcome (gmap string (list value)) :=
  match chaves with
  | [] => Return novo_dicionario
  | coluna :: resto =>
      linhas <~ lift (getitem novo_dicionario coluna);;
      v <~ cell dataset coluna i;;
      append_row dataset resto i (<[coluna := linhas ++ [v]]> novo_dicionario)
  end.

(** The loop over the rows shared by [isna] and [notna], which differ in
    the test that selects a row. *)
Fixpoint select_rows (seleciona : nat → outcome bool)
    (dataset : gmap string (list value)) (chaves : list string)
    (linhas : list nat) (novo_dicionario : gmap string (list value))
  : outcome (gmap string (list value)) :=
  match linhas with
  | [] => Return novo_dicionario
  | i :: resto =>
      escolhida <~ seleciona i;;
      if (escolhida : bool) then
        novo <~ append_row dataset chaves i novo_dicionario;;
        select_rows seleciona dataset chaves resto novo
      else select_rows seleciona dataset chaves resto novo_dicionario
  end.

(** [{col: [] for col in self.dataset}]. *)
Definition novo_vazio (chaves : list string) : gmap string (list value) :=
  list_to_map ((λ col, (col, [])) <$> chaves).

(** [len(self.dataset[next(iter(self.dataset))])]. *)
Definition numero_linhas (dataset : gmap string (list value))
    (chaves : list string) : outcome nat :=
  match chaves with
  | [] => Throw StopIteration
  | primeira :: _ =>
      valores <~ lift (getitem dataset primeira);;
      Return (length valores)
  end.

Definition isna (dataset : gmap string (list value)) (chaves : list string)
    (columns : list string) : outcome (gmap string (list value)) :=
  let colunas_verificar := _get_target_columns chaves columns in
  let novo_dicionario := novo_vazio chaves in
  n <~ numero_linhas dataset chaves;;
  select_rows (any_none dataset colunas_verificar) dataset chaves
    (seq 0 n) novo_dicionario.

Definition notna (dataset : gmap string (list value)) (chaves : list string)
    (columns : list string) : outcome (gmap string (list value)) :=
  let colunas_verificar := _get_target_columns chaves columns in
  let novo_dicionario := novo_vazio chaves in
  n <~ numero_linhas dataset chaves;;
  select_rows (all_not_none dataset colunas_verificar) dataset chaves
    (seq 0 n) novo_dicionario.

(** The value [fillna] fills a column with; [VNone] when there is none. *)
Definition valor_preenchimento (dataset : gmap string (list value))
    (method : string) (default_value : value) (coluna : string)
  : outcome value :=
  if String.eqb method "mean" then lift (Statistics.mean dataset coluna)
  else if String.eqb method "median" then Statistics.median dataset coluna
  else if String.eqb method "mode" then
    modas <~ lift (Statistics.mode dataset coluna);;
    Return (match modas with [] => VNone | moda :: _ => moda end)
  else if String.eqb method "default_value" then Return default_value
  else Throw (Err ValueError).

(** [[valor if v is None else v for v in valores]]. *)
Definition preencher (valor : value) (valores : list value) : list value :=
  (λ valor_coluna, if is_none valor_coluna then valor else valor_coluna)
    <$> valores.

(** The loop of [fillna]: the statistics object reads the dataset the loop
    is writing to. *)
Fixpoint fillna_loop (colunas_verificar : list string) (method : string)
    (default_value : value) (dataset : gmap string (list value))
  : gmap string (list value) * outcome unit :=
  match colunas_verificar with
  | [] => (dataset, Return ())
  | coluna :: resto =>
      match valor_preenchimento dataset method default_value coluna with
      | Throw e => (dataset, Throw e)
      | Return valor =>
          if negb (is_none valor) then
            match lift (getitem dataset coluna) with
            | Throw e => (dataset, Throw e)
            | Return valores =>
                fillna_loop resto method default_value
                  (<[coluna := preencher valor valores]> dataset)
            end
          else fillna_loop resto method default_value dataset
      end
  end.

Definition fillna (dataset : gmap string (list value)) (chaves : list string)
    (columns : list string) (method : string) (default_value : value)
  : gmap string (list value) * outcome unit :=
  let colunas_verificar := _get_target_columns chaves columns in
  match lift (Statistics.__init__
                (Statistics.RDict (Statistics.RList <$> dataset))) with
  | Throw e => (dataset, Throw e)
  | Return _ => fillna_loop colunas_verificar method default_value dataset
  end.

(** [self.dataset = self.notna(columns)]: the processor is bound to a new
    dictionary; the old one is not written to. *)
Definition dropna (dataset : gmap string (list value)) (chaves : list string)
    (columns : list string) : gmap string (list value) * outcome unit :=
  match notna dataset chaves columns with
  | Throw e => (dataset, Throw e)
  | Return novo => (novo, Return ())
  end.

End MissingValueProcessor.

(** *** Standard scaling

    [Scaler.standard_scaler] takes the mean and the standard deviation of
    a column from the rows [MissingValueProcessor.notna] keeps when it
    checks every column, and scales the cells of all the rows with them.
    The rows kept are copied to a dictionary of their own before the loop,
    so the statistics do not see what the loop writes.  As for the
    processor of missing values, [chaves] is the order of the keys. *)
Section standard_scaling.
Variable pow_half : Q → Q.

(** The body of the loop for one column: [None] is [continue], [Some l]
    is the list assigned to the column. *)
Definition standard_column (metodos_statistica : gmap string (list value))
    (coluna : string) (valores : list value)
  : result (option (list value)) :=
  let valores_numericos :=
    filter (fun v => is_numeric v && negb (is_none v)) valores in
  if bool_decide (valores_numericos = []) then Ok None
  else
    media_aritmetica <- Statistics.mean metodos_statistica coluna;;
    desvio_padrao <- Statistics.stdev pow_half metodos_statistica coluna;;
    if py_eq desvio_padrao (VInt 0) then
      Ok (Some ((fun valor =>
                   if is_numeric valor then VFloat 0 else valor) <$> valores))
    else
      valores_escalonados <-
        for_each (fun valor =>
                    if is_numeric valor then
                      diferenca <- py_sub valor media_aritmetica;;
                      py_truediv diferenca desvio_padrao
                    else Ok valor) valores;;
      Ok (Some valores_escalonados).

Fixpoint standard_loop (metodos_statistica : gmap string (list value))
    (colunas_verificar : list string) (dataset : gmap string (list value))
  : gmap string (list value) * outcome unit :=
  match colunas_verificar with
  | [] => (dataset, Return ())
  | coluna :: resto =>
      match valores <- getitem dataset coluna;;
            standard_column metodos_statistica coluna valores with
      | Raise e => (dataset, Throw (Err e))
      | Ok None => standard_loop metodos_statistica resto dataset
      | Ok (Some valores_escalonados) =>
          standard_loop metodos_statistica resto
            (<[coluna := valores_escalonados]> dataset)
      end
  end.

Definition standard_scaler (dataset : gmap string (list value))
    (chaves : list string) (columns : list string)
  : gmap string (list value) * outcome unit :=
  let colunas_verificar :=
    MissingValueProcessor._get_target_columns chaves columns in
  match MissingValueProcessor.notna dataset chaves [] with
  | Throw e => (dataset, Throw e)
  | Return valores_filtrados =>
      match lift (Statistics.__init__
                    (Statistics.RDict (Statistics.RList <$> valores_filtrados)))
      with
      | Throw e => (dataset, Throw e)
      | Return _ => standard_loop valores_filtrados colunas_verificar dataset
      end
  end.
End standard_scaling.

Module Preprocessing.

(** The facade hands one dictionary to its statistics, its processor of
    missing values, its scaler and its encoder.  [fillna] writes into the
    dictionary the processor holds; [dropna] binds the processor to a new
    dictionary that nothing else refers to.  [missing_values] says which
    dictionary the processor holds: the facade's, or one of its own. *)
Inductive binding : Type :=
| Shared
| Own (dataset : gmap string (list value)).

Record t : Type := Build {
  dataset : gmap string (list value);
  chaves : list string;
  missing_values : binding;
}.

(** [for _, valores in self.dataset.items():
       if len(valores) != tamanho_lista_referencia: raise ValueError]. *)
Fixpoint shape_loop (dataset : gmap string (list value))
    (chaves : list string) (tamanho_lista_referencia : nat) : outcome unit :=
  match chaves with
  | [] => Return ()
  | coluna :: resto =>
      valores <~ lift (getitem dataset coluna);;
      if bool_decide (length valores ≠ tamanho_lista_referencia) then
        Throw (Err ValueError)
      else shape_loop dataset resto tamanho_lista_referencia
  end.

(** [next(iter(self.dataset.values()))] raises [StopIteration] on a
    dataset without columns. *)
Definition _validate_dataset_shape (dataset : gmap string (list value))
    (chaves : list string) : outcome unit :=
  match chaves with
  | [] => Throw StopIteration
  | primeira :: _ =>
      valores <~ lift (getitem dataset primeira);;
      shape_loop dataset chaves (length valores)
  end.

Definition __init__ (dataset : gmap string (list value))
    (chaves : list string) : outcome t :=
  _ <~ _validate_dataset_shape dataset chaves;;
  _ <~ lift (Statistics.__init__
               (Statistics.RDict (Statistics.RList <$> dataset)));;
  Return {| dataset := dataset; chaves := chaves; missing_values := Shared |}.

(** [self.missing_values.dataset]. *)
Definition processor_dataset (self : t) : gmap string (list value) :=
  match missing_values self with
  | Shared => dataset self
  | Own proprio => proprio
  end.

Definition isna (self : t) (columns : list string)
  : outcome (gmap string (list value)) :=
  MissingValueProcessor.isna (processor_dataset self) (chaves self) columns.

Definition notna (self : t) (columns : list string)
  : outcome (gmap string (list value)) :=
  MissingValueProcessor.notna (processor_dataset self) (chaves self) columns.

(** The methods that change something return [self], so that calls can be
    chained; here they return the facade they leave behind, with [Return ()]
    or the exception that interrupted them. *)
Definition fillna (self : t) (columns : list string) (method : string)
    (default_value : value) : t * outcome unit :=
  let '(novo, r) :=
    MissingValueProcessor.fillna (processor_dataset self) (chaves self)
      columns method default_value in
  (match missing_values self with
   | Shared => {| dataset := novo; chaves := chaves self;
                  missing_values := Shared |}
   | Own _ => {| dataset := dataset self; chaves := chaves self;
                 missing_values := Own novo |}
   end, r).

Definition dropna (self : t) (columns : list string) : t * outcome unit :=
  let '(novo, r) :=
    MissingValueProcessor.dropna (processor_dataset self) (chaves self)
      columns in
  match r with
  | Return _ => ({| dataset := dataset self; chaves := chaves self;
                    missing_values := Own novo |}, r)
  | Throw _ => (self, r)
  end.

(** A chain of calls [p.fillna(...).dropna(...)...], which stops at the
    first exception. *)
Inductive call : Type :=
| Fillna (columns : list string) (method : string) (default_value : value)
| Dropna (columns : list string).

Definition step (self : t) (c : call) : t * outcome unit :=
  match c with
  | Fillna columns method default_value =>
      fillna self columns method default_value
  | Dropna columns => dropna self columns
  end.

Fixpoint chain (self : t) (calls : list call) : t * outcome unit :=
  match calls with
  | [] => (self, Return ())
  | c :: resto =>
      match step self c with
      | (self', Return _) => chain self' resto
      | (self', Throw e) => (self', Throw e)
      end
  end.

End Preprocessing.

(** ** Vocabulary of the properties *)

(** A result that is a number equal to [x]. *)
Definition returns_number (r : result object) (x : Q) : Prop :=
  ∃ v q, r = Ok (OValue v) ∧ num_of v = Some q ∧ (q == x)%Q.

(** A result that signals an error to the caller: the call raises. *)
Definition signals_error {A : Type} (r : result A) : Prop :=
  ∃ e, r = Raise e.

(** The conditions a mapping handed to the constructor can fail. *)
Definition has_non_list (d : gmap string Statistics.raw_column) : Prop :=
  ∃ k, d !! k = Some Statistics.RNotList.

Definition lengths_differ (d : gmap string Statistics.raw_column) : Prop :=
  ∃ k1 k2 xs ys,
    d !! k1 = Some (Statistics.RList xs) ∧ d !! k2 = Some (Statistics.RList ys)
    ∧ length xs ≠ length ys.

Definition has_empty_column (d : gmap string Statistics.raw_column) : Prop :=
  ∃ k, d !! k = Some (Statistics.RList []).

(** The number denoted by a numeric cell (0 for any other cell). *)
Definition qval (v : value) : Q := default 0%Q (num_of v).




(** The cells found at row [i] of the columns called [nomes]. *)
Definition row_cells (d : gmap string (list value)) (nomes : list string)
    (i : nat) : list value :=
  omap (fun nome => d !! nome ≫= (.!! i)) nomes.

(** Pairwise different cells, as the keys of a dictionary are. *)
Fixpoint distinct_keys (ks : list value) : Prop :=
  match ks with
  | [] => True
  | k :: ks' => Forall (λ k', py_eq k k' = false) ks' ∧ distinct_keys ks'
  end.

(** Strictly ascending cells: each cell is [<] the next one. *)
Definition lt_head (x : value) (l : list value) : Prop :=
  match l with
  | [] => True
  | y :: _ => py_lt x y = Ok true
  end.

Fixpoint ascending (l : list value) : Prop :=
  match l with
  | [] => True
  | x :: l' => lt_head x l' ∧ ascending l'
  end.

(** Sums of integers and of rationals, and running sums. *)
Definition sum_Z (l : list Z) : Z := foldr Z.add 0 l.

Definition sum_Q (l : list Q) : Q := foldr Qplus 0%Q l.



(** The number of cells of a column that equal [k]. *)
Fixpoint count_eq (k : value) (valores : list value) : Z :=
  match valores with
  | [] => 0
  | v :: valores' => (if py_eq v k then 1 else 0) + count_eq k valores'
  end.

(** The non-null cells of a column: its null-filtered view. *)
Definition validos (valores : list value) : list value :=
  filter (fun v => negb (is_none v)) valores.



(** The cells of a column that have a successor: all but the last. *)
Definition predecessores (valores : list value) : list value :=
  take (length valores - 1) valores.

(** How label encoding with the sorted categories [categorias] relates a
    cell to its code: a null stays null, and any other cell gets the
    position of the category equal to it. *)
Definition label_cell (categorias : list value) (v c : value) : Prop :=
  (v = VNone ∧ c = VNone)
  ∨ (is_none v = false
     ∧ ∃ (i : nat) categoria,
         c = VInt (Z.of_nat i) ∧ categorias !! i = Some categoria
         ∧ py_eq categoria v = true).

(** [chaves] lists the keys of the dataset, each once. *)
Definition keys_of (dataset : gmap string (list value))
    (chaves : list string) : Prop :=
  NoDup chaves ∧ ∀ k, k ∈ chaves ↔ is_Some (dataset !! k).

(** Every column has [n] rows. *)
Definition rectangular (dataset : gmap string (list value)) (n : nat) : Prop :=
  ∀ k col, dataset !! k = Some col → length col = n.

(** Row [i] has a null in one of the columns [colunas]. *)
Definition has_null (dataset : gmap string (list value))
    (colunas : list string) (i : nat) : bool :=
  existsb (λ c, match dataset !! c ≫= (.!! i) with
               | Some v => is_none v
               | None => false
               end) colunas.

(** The cells of a column at the rows [linhas], in that order. *)
Definition rows_at (col : list value) (linhas : list nat) : list value :=
  omap (λ i, col !! i) linhas.

(** The rows without a null, and the rows with a null, in the columns
    [colunas], among the first [n]. *)
Definition complete_rows (dataset : gmap string (list value))
    (colunas : list string) (n : nat) : list nat :=
  filter (λ i, has_null dataset colunas i = false) (seq 0 n).

Definition null_rows (dataset : gmap string (list value))
    (colunas : list string) (n : nat) : list nat :=
  filter (λ i, has_null dataset colunas i = true) (seq 0 n).

(** Two columns of the dataset have different lengths. *)
Definition ragged (dataset : gmap string (list value)) : Prop :=
  ∃ k1 k2 col1 col2,
    dataset !! k1 = Some col1 ∧ dataset !! k2 = Some col2
    ∧ length col1 ≠ length col2.

(** The column [c] of the dataset has a number. *)
Definition has_number (dataset : gmap string (list value)) (c : string)
  : bool :=
  match dataset !! c with
  | Some col => existsb is_numeric col
  | None => false
  end.


(** * Properties *)

(** ** Basic facts about cells *)

Lemma py_eq_refl (v : value) : py_eq v v = true.
Proof.
  destruct v as [|[]|z|q|s]; simpl; try reflexivity.
  - apply Qeq_bool_iff. reflexivity.
  - apply Qeq_bool_iff. reflexivity.
  - apply String.eqb_refl.
Qed.

Lemma py_eq_sym (a b : value) : py_eq a b = py_eq b a.
Proof.
  assert (Hq : ∀ x y, Qeq_bool x y = Qeq_bool y x).
  { intros x y. destruct (Qeq_bool x y) eqn:E, (Qeq_bool y x) eqn:E'; try reflexivity.
    - apply Qeq_bool_iff in E. symmetry in E. apply Qeq_bool_iff in E. congruence.
    - apply Qeq_bool_iff in E'. symmetry in E'. apply Qeq_bool_iff in E'. congruence. }
  destruct a, b; simpl; try reflexivity; try apply Hq.
  apply String.eqb_sym.
Qed.

Section conditional_probability.
Import Statistics.

(** A column with fewer than two cells: the exception instance comes
    back as the return value of a call that completes normally. *)
Lemma conditional_probability_short (self : gmap string (list value))
    (column : string) (valores : list value) (value1 value2 : value) :
  self !! column = Some valores →
  (length valores < 2)%nat →
  conditional_probability self column value1 value2
  = Ok (OException KeyError).
Proof.
  intros Hcol Hlen. unfold conditional_probability, _validate_column, getitem.
  rewrite Hcol. rewrite decide_True by eauto. simpl.
  rewrite bool_decide_true by lia. reflexivity.
Qed.

(** C1 (as the code has it): on the one-row column [[1]] and on the
    column [[1, 2]] queried for a predecessor that never occurs,
    [conditional_probability] completes normally and hands back a
    [KeyError] instance, a truthy object, instead of raising. *)
Theorem conditional_probability_returns_exception_object :
  let curta : gmap string (list value) := {["c" := [VInt 1]]} in
  let sem_b : gmap string (list value) := {["c" := [VInt 1; VInt 2]]} in
  conditional_probability curta "c" (VInt 1) (VInt 1)
    = Ok (OException KeyError)
  ∧ conditional_probability sem_b "c" (VInt 2) (VInt 3)
    = Ok (OException KeyError)
  ∧ truthy (OException KeyError) = true
  ∧ ¬ signals_error (conditional_probability curta "c" (VInt 1) (VInt 1))
  ∧ ¬ signals_error (conditional_probability sem_b "c" (VInt 2) (VInt 3)).
Proof.
  repeat split; try reflexivity; intros [e He]; vm_compute in He; discriminate.
Qed.

(** The scan on [[b, a, b, a, b, c]] finds [b] three times as a
    predecessor, twice followed by [a]. *)
Lemma scan_pairs_babab (a b c : value) :
  py_eq a b = false → py_eq c b = false → py_eq c a = false →
  scan_pairs [b; a; b; a; b; c] a b (0, 0) = (3, 2).
Proof.
  intros Hab Hcb Hca. simpl.
  rewrite !py_eq_refl, Hab, Hca. reflexivity.
Qed.

(** C6 (amended): on the sequence [[B, A, B, A, B, C]] with distinct
    tokens, the B-count is 3, the joint count is 2, and
    [conditional_probability] for consequent [A] given predecessor [B]
    returns 2/3. *)
Theorem conditional_probability_babab (self : gmap string (list value))
    (column : string) (a b c : value) :
  self !! column = Some [b; a; b; a; b; c] →
  py_eq a b = false → py_eq c b = false → py_eq c a = false →
  returns_number (conditional_probability self column a b) (2 # 3).
Proof.
  intros Hcol Hab Hcb Hca.
  unfold conditional_probability, _validate_column, getitem.
  rewrite Hcol. rewrite decide_True by eauto.
  cbn [bind length]. rewrite bool_decide_false by (simpl; lia).
  rewrite scan_pairs_babab by assumption.
  exists (VFloat (2 / 3)), (2 / 3)%Q. repeat split; reflexivity.
Qed.

Lemma conditional_probability_babab_witness :
  returns_number
    (conditional_probability
       {["c" := [VStr "B"; VStr "A"; VStr "B"; VStr "A"; VStr "B"; VStr "C"]]}
       "c" (VStr "A") (VStr "B"))
    (2 # 3).
Proof.
  apply (conditional_probability_babab _ "c" (VStr "A") (VStr "B") (VStr "C"));
    reflexivity.
Defined.

(** C6 (as stated) fails: on [[B, A, B, A, B, C]] the result is not 1.0. *)
Lemma conditional_probability_babab_not_one :
  ¬ returns_number
      (conditional_probability
         {["c" := [VStr "B"; VStr "A"; VStr "B"; VStr "A"; VStr "B"; VStr "C"]]}
         "c" (VStr "A") (VStr "B"))
      1.
Proof.
  intros (v & q & Hr & Hv & Hq). vm_compute in Hr.
  injection Hr as <-. simpl in Hv. injection Hv as <-.
  revert Hq. unfold Qeq. simpl. lia.
Qed.
End conditional_probability.

Section frequencies.
Import Statistics.

(** C2 (as the code has it): on the column [[2, 5, 5]] the relative
    frequency has a single entry, for 2.  The guard of the loop looks the
    count 2 of the value 5 up among the keys already written, finds the
    key 2, and skips the entry of 5. *)
Theorem relative_frequency_drops_entry :
  relative_frequency {["c" := [VInt 2; VInt 5; VInt 5]]} "c"
  = Ok [(VInt 2, VFloat (1 # 3))].
Proof. reflexivity. Qed.

(** The absolute frequency of the same column has both entries. *)
Example absolute_frequency_255 :
  absolute_frequency {["c" := [VInt 2; VInt 5; VInt 5]]} "c"
  = Ok [(VInt 2, 1); (VInt 5, 2)].
Proof. reflexivity. Qed.

(** C7 (as the code has it): in relative mode on the null-free column
    [[2, 5, 5]] the cumulative frequency ends at 1/3, not at 1.0, because
    the relative frequency it accumulates lacks the entry of 5. *)
Theorem cumulative_frequency_relative_final :
  cumulative_frequency {["c" := [VInt 2; VInt 5; VInt 5]]} "c" "relative"
  = Ok [(VInt 2, VFloat (1 # 3))].
Proof. reflexivity. Qed.

(** C4 (as the code has it): on the column [[None, None, 1]] the mode is
    [[None]]: the frequencies are counted over the whole column, nulls
    included, and null is the most frequent cell. *)
Theorem mode_returns_null :
  mode {["c" := [VNone; VNone; VInt 1]]} "c" = Ok [VNone].
Proof. reflexivity. Qed.

(** The multimodal example of the specification. *)
Example mode_11223 :
  mode {["c" := [VInt 1; VInt 1; VInt 2; VInt 2; VInt 3]]} "c"
  = Ok [VInt 1; VInt 2].
Proof. reflexivity. Qed.

(** C3 (as the code has it): [covariance] raises [TypeError] on every
    input, because its first statement calls [_validate_column] with two
    arguments. *)
Theorem covariance_always_raises (self : gmap string (list value))
    (column_a column_b : string) :
  covariance self column_a column_b = Raise TypeError.
Proof. reflexivity. Qed.

Example covariance_two_columns :
  covariance {["a" := [VInt 1; VInt 2]; "b" := [VInt 3; VInt 4]]} "a" "b"
  = Raise TypeError.
Proof. reflexivity. Qed.
End frequencies.

Section construction.
Import Statistics.

Lemma mapM_as_list_None (d : gmap string raw_column) :
  mapM as_list (map_to_list d).*2 = None ↔ has_non_list d.
Proof.
  rewrite mapM_None, Exists_exists. split.
  - intros (x & Hx & Hnone). destruct x; [discriminate|].
    apply list_elem_of_fmap in Hx as ([k v] & Heq & Hkv).
    simpl in Heq; subst v. apply elem_of_map_to_list in Hkv. by exists k.
  - intros [k Hk]. exists RNotList. split; [|done].
    apply list_elem_of_fmap. exists (k, RNotList). split; [done|].
    by apply elem_of_map_to_list.
Qed.

Lemma mapM_as_list_Some (d : gmap string raw_column)
    (colunas : list (list value)) :
  mapM as_list (map_to_list d).*2 = Some colunas →
  ∀ n, n ∈ length <$> colunas ↔ ∃ k xs, d !! k = Some (RList xs) ∧ length xs = n.
Proof.
  intros Hm%mapM_Some n. rewrite list_elem_of_fmap. split.
  - intros (xs & -> & Hxs).
    apply list_elem_of_lookup in Hxs as [i Hi].
    destruct (Forall2_lookup_r _ _ _ _ _ Hm Hi) as (v & Hv & Hvx).
    destruct v; [|discriminate]. injection Hvx as ->.
    apply list_elem_of_lookup_2, list_elem_of_fmap in Hv as ([k v] & Heq & Hkv).
    simpl in Heq; subst v. apply elem_of_map_to_list in Hkv. eauto.
  - intros (k & xs & Hk & <-). exists xs. split; [done|].
    apply elem_of_map_to_list in Hk.
    assert (Hin : RList xs ∈ (map_to_list d).*2).
    { apply list_elem_of_fmap. by exists (k, RList xs). }
    apply list_elem_of_lookup in Hin as [i Hi].
    destruct (Forall2_lookup_l _ _ _ _ _ Hm Hi) as (ys & Hys & Heq).
    injection Heq as <-. by eapply list_elem_of_lookup_2.
Qed.

(** The set of column lengths has exactly one element when the mapping
    is non-empty and no two columns differ in length. *)
Lemma lengths_size (d : gmap string raw_column)
    (colunas : list (list value)) :
  mapM as_list (map_to_list d).*2 = Some colunas →
  d ≠ ∅ →
  size (list_to_set (length <$> colunas) : gset nat) ≠ 1%nat
  ↔ lengths_differ d.
Proof.
  intros Hm Hne. pose proof (mapM_as_list_Some d colunas Hm) as Hlen.
  assert (Hsome : ∃ k xs, d !! k = Some (RList xs)).
  { destruct (map_choose d Hne) as (k & v & Hk). exists k.
    destruct v as [xs|]; [by exists xs|].
    assert (has_non_list d) as Hnl%mapM_as_list_None by (by exists k).
    congruence. }
  split.
  - intros Hsz.
    destruct Hsome as (k & xs & Hk).
    destruct (decide (Forall (λ n, n = length xs) (length <$> colunas)))
      as [Hall|Hnall].
    + exfalso. apply Hsz. rewrite Forall_forall in Hall.
      assert (list_to_set (length <$> colunas) = ({[ length xs ]} : gset nat)) as ->.
      { apply set_eq. intros n. rewrite elem_of_list_to_set, elem_of_singleton.
        split; [apply Hall|]. intros ->. apply Hlen. eauto. }
      apply size_singleton.
    + apply not_Forall_Exists in Hnall; [|intros n; apply _].
      apply Exists_exists in Hnall as (n & Hn & Hneq).
      apply Hlen in Hn as (k2 & ys & Hk2 & Hys).
      exists k, k2, xs, ys. repeat split; try done. congruence.
  - intros (k1 & k2 & xs & ys & Hk1 & Hk2 & Hneq) Hsz.
    apply Hneq. eapply (size_singleton_inv (C:=gset nat)); [exact Hsz| |];
      apply elem_of_list_to_set, Hlen; eauto.
Qed.

Lemma lookup_omap_as_list (d : gmap string raw_column) (k : string) :
  omap as_list d !! k = d !! k ≫= as_list.
Proof. apply lookup_omap. Qed.

(** C5 (amended): construction from a mapping raises [TypeError] exactly
    when some value is not a list, and [ValueError] exactly when all
    values are lists and the mapping is empty or two columns differ in
    length.  Otherwise it succeeds and stores the mapping as given: at
    least one column, all columns of one length, which may be 0. *)
Theorem init_characterisation (d : gmap string raw_column) :
  (__init__ (RDict d) = Raise TypeError ↔ has_non_list d)
  ∧ (__init__ (RDict d) = Raise ValueError
     ↔ ¬ has_non_list d ∧ (d = ∅ ∨ lengths_differ d))
  ∧ (∀ self,
       __init__ (RDict d) = Ok self
       ↔ ¬ has_non_list d ∧ d ≠ ∅ ∧ ¬ lengths_differ d
         ∧ self = omap as_list d)
  ∧ (∀ self,
       __init__ (RDict d) = Ok self →
       RList <$> self = d
       ∧ self ≠ ∅
       ∧ ∀ k1 k2 xs ys,
           self !! k1 = Some xs → self !! k2 = Some ys →
           length xs = length ys).
Proof.
  assert (Hchar :
    (__init__ (RDict d) = Raise TypeError ↔ has_non_list d)
    ∧ (__init__ (RDict d) = Raise ValueError
       ↔ ¬ has_non_list d ∧ (d = ∅ ∨ lengths_differ d))
    ∧ (∀ self,
         __init__ (RDict d) = Ok self
         ↔ ¬ has_non_list d ∧ d ≠ ∅ ∧ ¬ lengths_differ d
           ∧ self = omap as_list d)).
  { unfold __init__.
    destruct (mapM as_list (map_to_list d).*2) as [colunas|] eqn:Hm.
    - assert (Hnl : ¬ has_non_list d).
      { intros H%mapM_as_list_None. congruence. }
      case_bool_decide as Hempty.
      { split; [split; [done|tauto]|]. split; [tauto|].
        intros self. split; [done|tauto]. }
      pose proof (lengths_size d colunas Hm Hempty) as Hsz.
      case_bool_decide as Hsize.
      + apply Hsz in Hsize.
        split; [split; [done|tauto]|]. split; [tauto|].
        intros self. split; [done|tauto].
      + assert (Hnd : ¬ lengths_differ d) by (intros H; by apply Hsz in H).
        split; [split; [done|tauto]|]. split; [split; [done|tauto]|].
        intros self. split; [by intros [= <-]|by intros (_ & _ & _ & ->)].
    - apply mapM_as_list_None in Hm.
      split; [tauto|]. split; [split; [done|tauto]|].
      intros self. split; [done|tauto]. }
  destruct Hchar as (Ht & Hv & Hok).
  split; [exact Ht|]. split; [exact Hv|]. split; [exact Hok|].
  intros self (Hnl & Hne & Hnd & ->)%Hok. split; [|split].
  - apply map_eq. intros k. rewrite lookup_fmap, lookup_omap_as_list.
    destruct (d !! k) as [[xs|]|] eqn:Hk; try done.
    exfalso. apply Hnl. by exists k.
  - intros Hempty. apply Hne.
    apply map_eq. intros k. rewrite lookup_empty.
    destruct (d !! k) as [[xs|]|] eqn:Hk; try done.
    + assert (omap as_list d !! k = Some xs) as Hc
        by (by rewrite lookup_omap_as_list, Hk).
      rewrite Hempty, lookup_empty in Hc. discriminate.
    + exfalso. apply Hnl. by exists k.
  - intros k1 k2 xs ys H1 H2.
    rewrite lookup_omap_as_list in H1, H2.
    destruct (d !! k1) as [[xs'|]|] eqn:Hk1; try done.
    destruct (d !! k2) as [[ys'|]|] eqn:Hk2; try done.
    simpl in H1, H2. injection H1 as ->. injection H2 as ->.
    destruct (decide (length xs = length ys)) as [|Hneq]; [done|].
    exfalso. apply Hnd. by exists k1, k2, xs, ys.
Qed.

(** Anything that is not a dictionary is rejected with [TypeError]. *)
Lemma init_not_dict : __init__ RNotDict = Raise TypeError.
Proof. reflexivity. Qed.

(** C5 (as stated) fails: the mapping with the single empty column [a]
    has an empty column, yet construction accepts it and stores it. *)
Lemma init_accepts_empty_column :
  let d : gmap string raw_column := {["a" := RList []]} in
  has_empty_column d
  ∧ ¬ signals_error (__init__ (RDict d))
  ∧ ∃ self, __init__ (RDict d) = Ok self ∧ self !! "a" = Some [].
Proof.
  repeat split.
  - exists "a". reflexivity.
  - intros [e He]. vm_compute in He. discriminate.
  - eexists. split; reflexivity.
Qed.
Lemma init_characterisation_witness :
  let d : gmap string raw_column :=
    {["a" := RList [VInt 1; VNone]; "b" := RList [VStr "x"; VStr "y"]]} in
  ∃ self,
    __init__ (RDict d) = Ok self
    ∧ RList <$> self = d
    ∧ self ≠ ∅
    ∧ ∀ k1 k2 xs ys,
        self !! k1 = Some xs → self !! k2 = Some ys → length xs = length ys.
Proof.
  eexists. split; [reflexivity|].
  apply (proj2 (proj2 (proj2 (init_characterisation
    {["a" := RList [VInt 1; VNone]; "b" := RList [VStr "x"; VStr "y"]]})))).
  reflexivity.
Defined.

End construction.

(** ** Numbers *)

Lemma num_of_numeric (v : value) :
  is_numeric v = true → num_of v = Some (qval v).
Proof. by destruct v. Qed.





Section min_max.




End min_max.

Lemma for_each_Forall2 {A B : Type} (f : A → result B) (P : A → B → Prop)
    (xs : list A) :
  (∀ x, x ∈ xs → ∃ y, f x = Ok y ∧ P x y) →
  ∃ ys, for_each f xs = Ok ys ∧ Forall2 P xs ys.
Proof.
  induction xs as [|x xs IH]; intros Hf.
  - exists []. by split.
  - destruct (Hf x) as (y & Hy & HP); [apply list_elem_of_here|].
    destruct IH as (ys & Hys & HF).
    { intros x' Hx'. apply Hf. by apply list_elem_of_further. }
    exists (y :: ys). cbn [for_each bind]. rewrite Hy. cbn [bind].
    rewrite Hys. split; [done|]. by constructor.
Qed.


Section minMax.
Import Scaler.

Lemma elem_of_numericos (v : value) (valores : list value) :
  v ∈ filter (fun v => is_numeric v && negb (is_none v)) valores
  ↔ v ∈ valores ∧ is_numeric v = true.
Proof.
  rewrite list_elem_of_filter. destruct v; simpl; intuition (done || auto).
Qed.










(** The same column, evaluated. *)
Example minMax_scaler_example :
  (minMax_scaler {["c" := [VInt 2; VNone; VInt 4; VStr "x"; VBool true]]}
                 ["c"]).1 !! "c"
  = Some [VFloat (1 # 3); VNone; VFloat (3 # 3); VStr "x"; VFloat (0 # 3)].
Proof. reflexivity. Qed.
End minMax.

(** ** Equality of cells is an equivalence *)

Lemma py_eq_true (a b : value) :
  py_eq a b = true
  ↔ (a = VNone ∧ b = VNone)
    ∨ (∃ s, a = VStr s ∧ b = VStr s)
    ∨ (is_numeric a = true ∧ is_numeric b = true ∧ (qval a == qval b)%Q).
Proof.
  split.
  - destruct a as [|x|x|x|s], b as [|y|y|y|t]; simpl; try discriminate;
      try (intros H%Qeq_bool_iff; right; right; by repeat split).
    + intros _. by left.
    + intros ->%String.eqb_eq. right; left. by exists t.
  - intros [[-> ->]|[(s & -> & ->)|(Ha & Hb & Hq)]].
    + done.
    + apply String.eqb_refl.
    + apply Qeq_bool_iff in Hq. by destruct a, b.
Qed.

Lemma py_eq_trans (a b c : value) :
  py_eq a b = true → py_eq b c = true → py_eq a c = true.
Proof.
  rewrite !py_eq_true.
  intros [[Ha Hb]|[(s & Ha & Hb)|(Ha & Hb & Hq)]];
    intros [[Hb' Hc]|[(t & Hb' & Hc)|(Hb' & Hc & Hq')]]; simplify_eq/=; eauto.
  right; right. repeat split; try done. by rewrite Hq.
Qed.

(** ** Dictionaries keyed by cells *)

Section pydict_facts.
Context {V : Type}.
Implicit Types (d : list (value * V)) (k : value) (v : V).

Lemma pd_get_is_Some d k :
  is_Some (pd_get d k) ↔ ∃ k', k' ∈ d.*1 ∧ py_eq k' k = true.
Proof.
  induction d as [|[k0 v0] d IH]; simpl.
  - split; [by intros [? [=]]|]. by intros (? & ?%not_elem_of_nil & _).
  - destruct (py_eq k0 k) eqn:Heq.
    + split; [|by eauto]. intros _. exists k0. split; [apply list_elem_of_here|done].
    + rewrite IH. split.
      * intros (k' & Hin & Hk'). exists k'. split; [by apply list_elem_of_further|done].
      * intros (k' & [->|Hin]%elem_of_cons & Hk'); [congruence|eauto].
Qed.

(** Writing an entry keeps every key that was there and makes the written
    key, or a key equal to it, present. *)
Lemma pd_set_keys d k v k' :
  k' ∈ (pd_set d k v).*1 ↔ k' ∈ d.*1 ∨ (k' = k ∧ pd_get d k = None).
Proof.
  induction d as [|[k0 v0] d IH]; simpl.
  - rewrite list_elem_of_singleton. split; [by right|]. by intros [?%not_elem_of_nil|[? _]].
  - destruct (py_eq k0 k) eqn:Heq; simpl.
    + split; [by left|]. by intros [?|[_ [=]]].
    + rewrite !elem_of_cons, IH. tauto.
Qed.

Lemma pd_get_set_same d k v : is_Some (pd_get (pd_set d k v) k).
Proof.
  induction d as [|[k0 v0] d IH]; simpl.
  - by rewrite py_eq_refl.
  - destruct (py_eq k0 k) eqn:Heq; simpl; by rewrite Heq.
Qed.
End pydict_facts.

(** ** Sorting and sets of cells *)

Lemma py_lt_raises (a b : value) (e : exn) :
  py_lt a b = Raise e → e = TypeError.
Proof.
  unfold py_lt. destruct a, b; simpl; congruence.
Qed.

Lemma py_insert_Ok (x : value) (l l' : list value) :
  py_insert x l = Ok l' → l' ≡ₚ x :: l.
Proof.
  revert l'. induction l as [|y l IH]; intros l'; simpl.
  - by intros [= <-].
  - destruct (py_lt x y) as [[]|]; simpl; [by intros [= <-]| |done].
    destruct (py_insert x l) as [r|]; simpl; [|done].
    intros [= <-]. rewrite (IH r eq_refl). apply Permutation_swap.
Qed.

Lemma py_insert_raises (x : value) (l : list value) (e : exn) :
  py_insert x l = Raise e → e = TypeError.
Proof.
  induction l as [|y l IH]; simpl; [done|].
  destruct (py_lt x y) as [[]|e'] eqn:Hlt; simpl; [done| |].
  - destruct (py_insert x l) as [r|e'']; simpl; [done|].
    intros [= <-]. by apply IH.
  - intros [= <-]. by eapply py_lt_raises.
Qed.

Lemma py_sorted_snoc (xs : list value) (x : value) :
  py_sorted (xs ++ [x]) = (ordenados <- py_sorted xs;; py_insert x ordenados).
Proof. unfold py_sorted. by rewrite foldl_snoc. Qed.

Lemma py_sorted_Ok (xs ys : list value) :
  py_sorted xs = Ok ys → ys ≡ₚ xs.
Proof.
  revert ys. induction xs as [|x xs IH] using rev_ind; intros ys.
  - by intros [= <-].
  - rewrite py_sorted_snoc.
    destruct (py_sorted xs) as [l|]; simpl; [|done].
    intros Hins%py_insert_Ok. rewrite Hins, (IH l eq_refl).
    by rewrite Permutation_app_comm.
Qed.

Lemma py_sorted_raises (xs : list value) (e : exn) :
  py_sorted xs = Raise e → e = TypeError.
Proof.
  induction xs as [|x xs IH] using rev_ind; [done|].
  rewrite py_sorted_snoc.
  destruct (py_sorted xs) as [l|e']; simpl.
  - apply py_insert_raises.
  - intros [= <-]. by apply IH.
Qed.

Lemma py_set_snoc (xs : list value) (x : value) :
  py_set (xs ++ [x])
  = if existsb (fun y => py_eq y x) (py_set xs) then py_set xs
    else py_set xs ++ [x].
Proof. unfold py_set. by rewrite foldl_snoc. Qed.

(** The set has only cells of the list, and a cell equal to each of them. *)
Lemma py_set_spec (xs : list value) :
  (∀ y, y ∈ py_set xs → y ∈ xs)
  ∧ (∀ x, x ∈ xs → ∃ y, y ∈ py_set xs ∧ py_eq y x = true).
Proof.
  induction xs as [|x xs [IH1 IH2]] using rev_ind.
  - split; [done|]. by intros x ?%not_elem_of_nil.
  - rewrite py_set_snoc.
    destruct (existsb _ (py_set xs)) eqn:Hex.
    + split.
      * intros y Hy. apply elem_of_app. left. by apply IH1.
      * intros x' [Hx'|Hx'%list_elem_of_singleton]%elem_of_app;
          [by apply IH2|subst x'].
        apply existsb_exists in Hex as (y & Hy%list_elem_of_In & Heq). eauto.
    + split.
      * intros y [Hy|Hy]%elem_of_app; apply elem_of_app; [left; by apply IH1|by right].
      * intros x' [Hx'|Hx'%list_elem_of_singleton]%elem_of_app; [|subst x'].
        -- destruct (IH2 x' Hx') as (y & Hy & Heq). exists y.
           split; [apply elem_of_app; by left|done].
        -- exists x. split; [apply elem_of_app; right; apply list_elem_of_here|].
           apply py_eq_refl.
Qed.

Section label_encode.
Import Encoder.

Lemma pd_get_set_mono {V : Type} (d : list (value * V)) (k k1 : value) (v1 : V) :
  is_Some (pd_get d k) → is_Some (pd_get (pd_set d k1 v1) k).
Proof.
  rewrite !pd_get_is_Some. intros (k' & Hin & Heq). exists k'.
  split; [|done]. apply pd_set_keys. by left.
Qed.

Lemma foldl_pd_set_mono (l : list (Z * value)) (d : list (value * Z))
    (k : value) :
  is_Some (pd_get d k) →
  is_Some (pd_get (foldl (fun mapa ic => pd_set mapa ic.2 ic.1) d l) k).
Proof.
  revert d. induction l as [|x l IH]; intros d Hd; [done|].
  simpl. by apply IH, pd_get_set_mono.
Qed.

Lemma foldl_pd_set_keys (l : list (Z * value)) (d : list (value * Z))
    (ic : Z * value) :
  ic ∈ l →
  is_Some (pd_get (foldl (fun mapa ic => pd_set mapa ic.2 ic.1) d l) ic.2).
Proof.
  revert d. induction l as [|x l IH]; intros d Hin.
  - by apply not_elem_of_nil in Hin.
  - apply elem_of_cons in Hin as [->|Hin]; simpl.
    + apply foldl_pd_set_mono, pd_get_set_same.
    + by apply IH.
Qed.

(** Every category has a code. *)
Lemma mapa_de_keys (categorias : list value) (y : value) :
  y ∈ categorias → is_Some (pd_get (mapa_de categorias) y).
Proof.
  intros [i Hi]%list_elem_of_lookup. unfold mapa_de.
  apply (foldl_pd_set_keys _ [] (Z.of_nat i, y)).
  apply list_elem_of_lookup. exists i. by rewrite list_lookup_imap, Hi.
Qed.

(** Every non-null cell of a column is a key of its category map. *)
Lemma mapa_de_covers (valores categorias : list value) (valor : value) :
  categorias_de valores = Ok categorias →
  valor ∈ valores → is_none valor = false →
  is_Some (pd_get (mapa_de categorias) valor).
Proof.
  intros Hcat%py_sorted_Ok Hin Hnn.
  destruct (py_set_spec (filter (fun v => negb (is_none v)) valores))
    as [_ Hcover].
  destruct (Hcover valor) as (y & Hy & Heq).
  { apply list_elem_of_filter. split; [|done]. by rewrite Hnn. }
  rewrite <- Hcat in Hy. apply mapa_de_keys in Hy.
  apply pd_get_is_Some in Hy as (k & Hk & Hky).
  apply pd_get_is_Some. exists k. split; [done|]. by eapply py_eq_trans.
Qed.

(** Encoding a column can only fail in the sort of its categories. *)
Lemma label_column_raises (valores : list value) (e : exn) :
  label_column valores = Raise e → e = TypeError.
Proof.
  unfold label_column.
  destruct (categorias_de valores) as [categorias|e'] eqn:Hcat; simpl.
  - destruct (for_each_Forall2
                (fun valor =>
                   if is_none valor then Ok VNone
                   else i <- pd_getitem (mapa_de categorias) valor;; Ok (VInt i))
                (fun _ _ => True) valores) as (ys & -> & _); [|done].
    intros valor Hin. destruct (is_none valor) eqn:Hnn; [by eauto|].
    destruct (mapa_de_covers valores categorias valor Hcat Hin Hnn) as [i Hi].
    unfold pd_getitem. rewrite Hi. simpl. eauto.
  - intros [= <-]. by eapply py_sorted_raises.
Qed.

(** [label_encode] neither adds nor removes columns. *)
Lemma label_encode_keys (columns : list string)
    (self : gmap string (list value)) (c : string) :
  (label_encode self columns).1 !! c = None ↔ self !! c = None.
Proof.
  revert self. induction columns as [|coluna resto IH]; intros self; [done|].
  simpl. destruct (self !! coluna) as [valores|] eqn:Hcol; [|by apply IH].
  destruct (label_column valores) as [codificadas|e]; [|done].
  rewrite IH, lookup_insert_None. split; [by intros [? _]|].
  intros Hc. split; [done|]. congruence.
Qed.

(** [label_encode] never raises a lookup error. *)
Lemma label_encode_raises (columns : list string)
    (self : gmap string (list value)) (e : exn) :
  (label_encode self columns).2 = Raise e → e = TypeError.
Proof.
  revert self. induction columns as [|coluna resto IH]; intros self; [done|].
  simpl. destruct (self !! coluna) as [valores|] eqn:Hcol; [|by apply IH].
  destruct (label_column valores) as [codificadas|e'] eqn:Hlab; [by apply IH|].
  simpl. intros [= <-]. by eapply label_column_raises.
Qed.

(** A requested name that is not a column can be dropped from the request. *)
Lemma label_encode_skip (cols1 cols2 : list string) (coluna : string)
    (self : gmap string (list value)) :
  self !! coluna = None →
  label_encode self (cols1 ++ coluna :: cols2)
  = label_encode self (cols1 ++ cols2).
Proof.
  revert self. induction cols1 as [|c cols1 IH]; intros self Habs; simpl.
  - by rewrite Habs.
  - destruct (self !! c) as [valores|] eqn:Hc; [|by apply IH].
    destruct (label_column valores) as [codificadas|e]; [|done].
    apply IH. rewrite lookup_insert_ne; [done|congruence].
Qed.

(** C9: a requested name that is not a column of the dataset is skipped by
    [label_encode]: wherever it stands in the request, the call behaves as
    if the name had not been requested, the name is still not a column
    afterwards, and no lookup error is raised (the only exception
    [label_encode] can raise is the [TypeError] of sorting the categories
    of a column that exists).  The engine's operations, by contrast, raise
    a lookup error for such a name. *)
Theorem label_encode_skips_absent (self : gmap string (list value))
    (cols1 cols2 : list string) (coluna : string) :
  self !! coluna = None →
  label_encode self (cols1 ++ coluna :: cols2)
  = label_encode self (cols1 ++ cols2)
  ∧ (label_encode self (cols1 ++ coluna :: cols2)).1 !! coluna = None
  ∧ (label_encode self (cols1 ++ coluna :: cols2)).2 ≠ Raise KeyError
  ∧ label_encode self [coluna] = (self, Ok ())
  ∧ Statistics._validate_column self coluna = Raise KeyError.
Proof.
  intros Habs. split; [by apply label_encode_skip|].
  split; [by apply label_encode_keys|].
  split; [by intros ?%label_encode_raises|].
  split; [by simpl; rewrite Habs|].
  unfold Statistics._validate_column. rewrite decide_False; [done|].
  rewrite Habs. by intros [? [=]].
Qed.

Lemma label_encode_skips_absent_witness :
  let self : gmap string (list value) :=
    {["c" := [VStr "b"; VNone; VStr "a"; VStr "b"]]} in
  label_encode self (["c"] ++ "d" :: ["c"]) = label_encode self (["c"] ++ ["c"])
  ∧ (label_encode self (["c"] ++ "d" :: ["c"])).1 !! "d" = None
  ∧ (label_encode self (["c"] ++ "d" :: ["c"])).2 ≠ Raise KeyError
  ∧ label_encode self ["d"] = (self, Ok ())
  ∧ Statistics._validate_column self "d" = Raise KeyError.
Proof.
  apply (label_encode_skips_absent
           {["c" := [VStr "b"; VNone; VStr "a"; VStr "b"]]} ["c"] ["c"] "d").
  reflexivity.
Defined.

(** The codes of a column follow the ascending order of its categories. *)
Example label_encode_example :
  (label_encode {["c" := [VStr "b"; VNone; VStr "a"; VStr "b"]]} ["d"; "c"]).1
    !! "c"
  = Some [VInt 1; VNone; VInt 0; VInt 1].
Proof. reflexivity. Qed.
End label_encode.

Section one_hot_facts.
Import Encoder.
Variable repr_float : Q → string.

Lemma string_length_app (s t : string) :
  String.length (s +:+ t) = (String.length s + String.length t)%nat.
Proof. induction s as [|a s IH]; simpl; [done|]. by rewrite IH. Qed.

(** The name of an indicator column is longer than the name of the column
    it comes from. *)
Lemma nova_coluna_fresh (coluna : string) (categoria : value) :
  nova_coluna repr_float coluna categoria ≠ coluna.
Proof.
  unfold nova_coluna. intros Heq%(f_equal String.length).
  rewrite !string_length_app in Heq. simpl in Heq. lia.
Qed.

Lemma oneHot_fill_snoc (coluna : string) (valores categorias : list value)
    (categoria : value) (dataset : gmap string (list value)) :
  oneHot_fill repr_float coluna valores (categorias ++ [categoria]) dataset
  = <[nova_coluna repr_float coluna categoria := indicador valores categoria]>
      (oneHot_fill repr_float coluna valores categorias dataset).
Proof. unfold oneHot_fill. by rewrite foldl_snoc. Qed.

(** The inner loop leaves the encoded column itself in place. *)
Lemma oneHot_fill_original (coluna : string) (valores categorias : list value)
    (dataset : gmap string (list value)) :
  oneHot_fill repr_float coluna valores categorias dataset !! coluna
  = dataset !! coluna.
Proof.
  induction categorias as [|categoria categorias IH] using rev_ind; [done|].
  rewrite oneHot_fill_snoc, lookup_insert_ne; [done|].
  apply nova_coluna_fresh.
Qed.

(** After the inner loop, the column named after a category holds the
    indicator of a category of that name. *)
Lemma oneHot_fill_indicator (coluna : string) (valores categorias : list value)
    (dataset : gmap string (list value)) (categoria : value) :
  categoria ∈ categorias →
  ∃ categoria',
    categoria' ∈ categorias
    ∧ nova_coluna repr_float coluna categoria'
      = nova_coluna repr_float coluna categoria
    ∧ oneHot_fill repr_float coluna valores categorias dataset
        !! nova_coluna repr_float coluna categoria
      = Some (indicador valores categoria').
Proof.
  induction categorias as [|c categorias IH] using rev_ind; intros Hin.
  - by apply not_elem_of_nil in Hin.
  - rewrite oneHot_fill_snoc.
    destruct (decide (nova_coluna repr_float coluna c
                      = nova_coluna repr_float coluna categoria)) as [Heq|Hne].
    + exists c. split; [apply elem_of_app; right; apply list_elem_of_here|].
      split; [done|]. rewrite Heq. apply lookup_insert_eq.
    + apply elem_of_app in Hin as [Hin|Hin%list_elem_of_singleton];
        [|by subst c].
      destruct (IH Hin) as (c' & Hc' & Hname & Hlook).
      exists c'. split; [apply elem_of_app; by left|]. split; [done|].
      by rewrite lookup_insert_ne.
Qed.

(** No category is null. *)
Lemma categorias_de_not_none (valores categorias : list value)
    (categoria : value) :
  categorias_de valores = Ok categorias →
  categoria ∈ categorias → is_none categoria = false.
Proof.
  intros Hcat%py_sorted_Ok Hin. rewrite Hcat in Hin.
  destruct (py_set_spec (filter (fun v => negb (is_none v)) valores))
    as [Hsub _].
  apply Hsub, list_elem_of_filter in Hin as [Hnn _].
  by destruct (is_none categoria).
Qed.

(** An indicator has a cell per row, and 0 on the rows of null cells. *)
Lemma indicador_null_row (valores : list value) (categoria : value) (i : nat) :
  is_none categoria = false →
  valores !! i = Some VNone →
  indicador valores categoria !! i = Some (VInt 0).
Proof.
  intros Hnn Hi. unfold indicador. rewrite list_lookup_fmap, Hi.
  by destruct categoria.
Qed.

Lemma py_sum_zeros (xs : list value) :
  Forall (λ x, x = VInt 0) xs → py_sum xs = Ok (VInt 0).
Proof.
  unfold py_sum. induction 1 as [|x xs -> _ IH]; [done|]. simpl. exact IH.
Qed.

(** C10: after [oneHot_encode] on one column whose categories can be
    sorted, the call completes, the original column is removed, and every
    generated indicator column has one cell per row, with the value 0 on
    each row whose original cell was null; the indicators of such a row
    therefore sum to 0. *)
Theorem oneHot_encode_null_rows (self : gmap string (list value))
    (coluna : string) (valores categorias : list value) :
  self !! coluna = Some valores →
  categorias_de valores = Ok categorias →
  ∃ self',
    oneHot_encode repr_float self [coluna] = (self', Ok ())
    ∧ self' !! coluna = None
    ∧ (∀ categoria, categoria ∈ categorias →
       ∃ col,
         self' !! nova_coluna repr_float coluna categoria = Some col
         ∧ length col = length valores
         ∧ ∀ i, valores !! i = Some VNone → col !! i = Some (VInt 0))
    ∧ (∀ i, valores !! i = Some VNone →
       py_sum (row_cells self' (nova_coluna repr_float coluna <$> categorias) i)
       = Ok (VInt 0)).
Proof.
  intros Hcol Hcat.
  set (cheio := oneHot_fill repr_float coluna valores categorias self).
  assert (Hcols : ∀ categoria, categoria ∈ categorias →
            ∃ col,
              delete coluna cheio !! nova_coluna repr_float coluna categoria
              = Some col
              ∧ length col = length valores
              ∧ ∀ i, valores !! i = Some VNone → col !! i = Some (VInt 0)).
  { intros categoria Hin.
    destruct (oneHot_fill_indicator coluna valores categorias self categoria Hin)
      as (c' & Hc' & _ & Hlook).
    exists (indicador valores c'). split; [|split].
    - rewrite lookup_delete_ne; [done|]. intros Heq. symmetry in Heq.
      by apply nova_coluna_fresh in Heq.
    - unfold indicador. apply length_fmap.
    - intros i Hi. apply indicador_null_row; [|done].
      by eapply categorias_de_not_none. }
  exists (delete coluna cheio). split; [|split; [|split]].
  - simpl. unfold getitem. rewrite Hcol. simpl. rewrite Hcat. simpl.
    fold cheio. assert (cheio !! coluna = Some valores) as ->; [|done].
    unfold cheio. by rewrite oneHot_fill_original.
  - apply lookup_delete_eq.
  - exact Hcols.
  - intros i Hi. apply py_sum_zeros. apply Forall_forall. intros x Hx.
    unfold row_cells in Hx.
    apply list_elem_of_omap in Hx as (nome & Hnome & Hcell).
    apply list_elem_of_fmap in Hnome as (categoria & -> & Hin).
    destruct (Hcols categoria Hin) as (col & Hlook & _ & Hzero).
    rewrite Hlook in Hcell. simpl in Hcell. rewrite (Hzero i Hi) in Hcell.
    congruence.
Qed.
End one_hot_facts.

Lemma oneHot_encode_null_rows_witness :
  let repr_float : Q → string := fun _ => "0.5" in
  let valores := [VStr "b"; VNone; VStr "a"; VStr "b"] in
  let categorias := [VStr "a"; VStr "b"] in
  ∃ self',
    Encoder.oneHot_encode repr_float {["c" := valores]} ["c"] = (self', Ok ())
    ∧ self' !! "c" = None
    ∧ (∀ categoria, categoria ∈ categorias →
       ∃ col,
         self' !! Encoder.nova_coluna repr_float "c" categoria = Some col
         ∧ length col = length valores
         ∧ ∀ i, valores !! i = Some VNone → col !! i = Some (VInt 0))
    ∧ (∀ i, valores !! i = Some VNone →
       py_sum (row_cells self'
                 (Encoder.nova_coluna repr_float "c" <$> categorias) i)
       = Ok (VInt 0)).
Proof.
  apply (oneHot_encode_null_rows (fun _ => "0.5")
           {["c" := [VStr "b"; VNone; VStr "a"; VStr "b"]]} "c"
           [VStr "b"; VNone; VStr "a"; VStr "b"] [VStr "a"; VStr "b"]);
    reflexivity.
Defined.

(** The encoding of that column, evaluated. *)
Example oneHot_encode_example :
  map_to_list
    (Encoder.oneHot_encode (fun _ => "0.5")
       {["c" := [VStr "b"; VNone; VStr "a"; VStr "b"]]} ["c"]).1
  = [("c_a", [VInt 0; VInt 0; VInt 1; VInt 0]);
     ("c_b", [VInt 1; VInt 0; VInt 0; VInt 1])].
Proof. reflexivity. Qed.

Section conditional_probability_cases.
Import Statistics.

(** The three ways [conditional_probability] ends on an existing column:
    it never raises, and it returns a number only when the column has two
    or more cells and [value2] occurs as a predecessor. *)
Lemma conditional_probability_cases (self : gmap string (list value))
    (column : string) (valores : list value) (value1 value2 : value) :
  self !! column = Some valores →
  conditional_probability self column value1 value2
  = if bool_decide (length valores < 2)%nat then Ok (OException KeyError)
    else
      let evento := scan_pairs valores value1 value2 (0, 0) in
      if bool_decide (evento.1 = 0) then Ok (OException KeyError)
      else Ok (OValue (VFloat (inject_Z evento.2 / inject_Z evento.1))).
Proof.
  intros Hcol. unfold conditional_probability, _validate_column, getitem.
  rewrite Hcol, decide_True by eauto. cbn [bind].
  case_bool_decide as Hlen.
  - by rewrite bool_decide_true by lia.
  - rewrite bool_decide_false by lia.
    destruct (scan_pairs valores value1 value2 (0, 0)) as [b ab]. cbn [fst snd].
    case_bool_decide as Hb; [done|].
    unfold py_truediv. cbn [num_of].
    destruct (Qeq_bool (inject_Z b) 0) eqn:Hz; [|done].
    apply Qeq_bool_iff in Hz. unfold Qeq in Hz. simpl in Hz. lia.
Qed.

(** An absent column is a lookup error. *)
Lemma conditional_probability_absent (self : gmap string (list value))
    (column : string) (value1 value2 : value) :
  self !! column = None →
  conditional_probability self column value1 value2 = Raise KeyError.
Proof.
  intros Hcol. unfold conditional_probability, _validate_column.
  rewrite decide_False; [done|]. rewrite Hcol. by intros [? [=]].
Qed.
End conditional_probability_cases.

(** ** Order of cells *)

Lemma py_lt_total (a b : value) :
  py_lt a b = Ok false → py_eq a b = false → py_lt b a = Ok true.
Proof.
  assert (Hs : ∀ s t, String.ltb s t = false → String.eqb s t = false →
                      String.ltb t s = true).
  { intros s t Hlt Heq. unfold String.ltb in *.
    rewrite (String.compare_antisym t s).
    destruct (String.compare s t) eqn:Hc; try done.
    apply String.compare_eq_iff in Hc. subst. by rewrite String.eqb_refl in Heq. }
  assert (Hq : ∀ x y, negb (Qle_bool y x) = false → Qeq_bool x y = false →
                      negb (Qle_bool x y) = true).
  { intros x y Hle Heq. apply negb_false_iff, Qle_bool_iff in Hle.
    apply negb_true_iff. destruct (Qle_bool x y) eqn:Hxy; [|done].
    apply Qle_bool_iff in Hxy. apply Qeq_bool_neq in Heq.
    destruct Heq. by apply Qle_antisym. }
  destruct a as [|x|x|x|s], b as [|y|y|y|t]; simpl; try done;
    try (intros [= Hlt] Heq; f_equal; by apply Hq).
  intros [= Hlt] Heq. f_equal. by apply Hs.
Qed.

Lemma distinct_keys_app (l1 l2 : list value) :
  distinct_keys (l1 ++ l2)
  ↔ distinct_keys l1 ∧ distinct_keys l2
    ∧ Forall (λ a, Forall (λ b, py_eq a b = false) l2) l1.
Proof.
  induction l1 as [|a l1 IH]; simpl.
  - split; [by intros ?; repeat split|by intros (_ & ? & _)].
  - rewrite Forall_app, IH, Forall_cons. tauto.
Qed.

Lemma distinct_keys_perm (l1 l2 : list value) :
  l1 ≡ₚ l2 → distinct_keys l1 → distinct_keys l2.
Proof.
  induction 1 as [|x l1 l2 Hp IH|x y l|l1 l2 l3 _ IH1 _ IH2]; simpl.
  - done.
  - intros [Hx Hd]. split; [by rewrite <- Hp|by apply IH].
  - intros [[Hyx Hy]%Forall_cons [Hx Hd]]. rewrite py_eq_sym in Hyx.
    repeat split; try done. by constructor.
  - by intros ?%IH1%IH2.
Qed.

Lemma py_insert_head (x y : value) (l r : list value) :
  py_insert x l = Ok r → py_lt y x = Ok true → lt_head y l → lt_head y r.
Proof.
  destruct l as [|z l]; simpl.
  - by intros [= <-].
  - destruct (py_lt x z) as [[]|]; simpl; [by intros [= <-]| |done].
    destruct (py_insert x l); simpl; [|done]. by intros [= <-].
Qed.

Lemma py_insert_ascending (x : value) (l r : list value) :
  ascending l → Forall (λ y, py_eq x y = false) l →
  py_insert x l = Ok r → ascending r.
Proof.
  revert r. induction l as [|y l IH]; intros r; simpl.
  - by intros _ _ [= <-].
  - intros [Hhd Hasc] [Hxy Hxl]%Forall_cons.
    destruct (py_lt x y) as [[]|] eqn:Hlt; simpl; [by intros [= <-]| |done].
    destruct (py_insert x l) as [r'|] eqn:Hins; simpl; [|done].
    intros [= <-]. simpl. split; [|by apply IH].
    eapply py_insert_head; [done| |done]. by apply py_lt_total.
Qed.

(** Sorting pairwise different cells puts them in strictly ascending order. *)
Lemma py_sorted_ascending (xs ys : list value) :
  distinct_keys xs → py_sorted xs = Ok ys → ascending ys.
Proof.
  revert ys. induction xs as [|x xs IH] using rev_ind; intros ys.
  - by intros _ [= <-].
  - intros (Hd & _ & Hx)%distinct_keys_app. rewrite py_sorted_snoc.
    destruct (py_sorted xs) as [l|] eqn:Hs; simpl; [|done].
    apply py_insert_ascending; [by apply IH|].
    rewrite (py_sorted_Ok _ _ Hs). apply Forall_forall. intros y Hy.
    rewrite Forall_forall in Hx. specialize (Hx y Hy).
    apply Forall_cons in Hx as [Hx _]. by rewrite py_eq_sym.
Qed.

(** ** Frequency tables *)

Section tables.
Context {V : Type}.
Implicit Types (d : list (value * V)) (k : value) (v : V).

Lemma pd_get_None d k :
  pd_get d k = None ↔ Forall (λ k', py_eq k' k = false) d.*1.
Proof.
  induction d as [|[k0 v0] d IH]; cbn [pd_get]; [by split|].
  rewrite fmap_cons, Forall_cons. cbn [fst].
  destruct (py_eq k0 k); [|rewrite IH; tauto].
  split; [done|]. by intros [[=] _].
Qed.

Lemma pd_set_None d k v : pd_get d k = None → pd_set d k v = d ++ [(k, v)].
Proof.
  induction d as [|[k0 v0] d IH]; simpl; [done|].
  destruct (py_eq k0 k); [done|]. by intros ->%IH.
Qed.

Lemma pd_set_Some d k v : is_Some (pd_get d k) → (pd_set d k v).*1 = d.*1.
Proof.
  induction d as [|[k0 v0] d IH]; cbn [pd_get pd_set]; [by intros [? [=]]|].
  destruct (py_eq k0 k); [done|]. intros H. rewrite !fmap_cons. f_equal.
  by apply IH.
Qed.

Lemma pd_set_distinct d k v :
  distinct_keys d.*1 → distinct_keys (pd_set d k v).*1.
Proof.
  intros Hd. destruct (pd_get d k) as [v'|] eqn:Hget.
  - by rewrite pd_set_Some by eauto.
  - rewrite pd_set_None, fmap_app by done. apply distinct_keys_app.
    simpl. repeat split; try done; try by constructor.
    apply pd_get_None in Hget. eapply Forall_impl; [exact Hget|].
    intros k' Hk'. by repeat constructor.
Qed.

(** With pairwise different keys, each key reads its own entry. *)
Lemma pd_get_own d :
  distinct_keys d.*1 → pd_get d <$> d.*1 = Some <$> d.*2.
Proof.
  induction d as [|[k0 v0] d IH]; [done|].
  rewrite !fmap_cons. cbn [fst snd distinct_keys pd_get].
  intros [Hk0 Hd]. rewrite py_eq_refl. f_equal.
  rewrite <- IH by done. apply Forall_fmap_ext.
  eapply Forall_impl; [exact Hk0|]. intros k Hk. cbn [pd_get]. by rewrite Hk.
Qed.
End tables.


Lemma sum_Z_cons (x : Z) (l : list Z) : sum_Z (x :: l) = x + sum_Z l.
Proof. reflexivity. Qed.

Lemma sum_Z_app (l1 l2 : list Z) : sum_Z (l1 ++ l2) = sum_Z l1 + sum_Z l2.
Proof. unfold sum_Z. induction l1; simpl; lia. Qed.

Lemma pd_set_incr_sum (d : list (value * Z)) (k : value) (n : Z) :
  pd_get d k = Some n →
  sum_Z (pd_set d k (n + 1)).*2 = sum_Z d.*2 + 1
  ∧ (Forall (λ m, 1 ≤ m) d.*2 → Forall (λ m, 1 ≤ m) (pd_set d k (n + 1)).*2).
Proof.
  induction d as [|[k0 v0] d IH]; cbn [pd_get pd_set]; [done|].
  destruct (py_eq k0 k); rewrite !fmap_cons, !sum_Z_cons; cbn [fst snd].
  - intros [= ->]. split; [lia|].
    intros [? ?]%Forall_cons. constructor; [lia|done].
  - intros [Hs Hf]%IH. split; [lia|].
    intros [? ?]%Forall_cons. constructor; [done|by apply Hf].
Qed.

Section absolute_frequency_facts.
Import Statistics.

Lemma absolute_frequency_loop_spec (valores : list value) (frequencia : list (value * Z)) :
  distinct_keys frequencia.*1 →
  Forall (λ m, 1 ≤ m) frequencia.*2 →
  distinct_keys (absolute_frequency_loop frequencia valores).*1
  ∧ Forall (λ m, 1 ≤ m) (absolute_frequency_loop frequencia valores).*2
  ∧ sum_Z (absolute_frequency_loop frequencia valores).*2
    = sum_Z frequencia.*2 + Z.of_nat (length valores).
Proof.
  revert frequencia.
  induction valores as [|x valores IH]; intros frequencia Hd Hpos.
  - simpl. repeat split; try done. lia.
  - cbn [absolute_frequency_loop].
    destruct (pd_get frequencia x) as [n|] eqn:Hget.
    + destruct (pd_set_incr_sum frequencia x n Hget) as [Hs Hf].
      destruct (IH (pd_set frequencia x (n + 1))) as (? & ? & Hsum);
        [by apply pd_set_distinct|by apply Hf|].
      repeat split; try done. rewrite Hsum, Hs. simpl length. lia.
    + destruct (IH (pd_set frequencia x 1)) as (? & ? & Hsum);
        [by apply pd_set_distinct| |].
      { rewrite pd_set_None, fmap_app by done. apply Forall_app.
        split; [done|]. by repeat constructor. }
      repeat split; try done. rewrite Hsum, pd_set_None, fmap_app, sum_Z_app by done.
      unfold sum_Z at 2. simpl. lia.
Qed.

Lemma absolute_frequency_unfold (self : gmap string (list value))
    (column : string) (valores : list value) :
  self !! column = Some valores → valores ≠ [] →
  absolute_frequency self column = Ok (absolute_frequency_loop [] valores).
Proof.
  intros Hcol Hne. unfold absolute_frequency, _validate_column, getitem.
  rewrite Hcol, decide_True by eauto. cbn [bind].
  by rewrite bool_decide_false.
Qed.

(** The absolute frequency has pairwise different keys, counts of at
    least 1, and counts that sum to the number of rows. *)
Lemma absolute_frequency_spec (self : gmap string (list value))
    (column : string) (valores : list value) :
  self !! column = Some valores → valores ≠ [] →
  ∃ frequencia,
    absolute_frequency self column = Ok frequencia
    ∧ distinct_keys frequencia.*1
    ∧ Forall (λ m, 1 ≤ m) frequencia.*2
    ∧ sum_Z frequencia.*2 = Z.of_nat (length valores).
Proof.
  intros Hcol Hne. exists (absolute_frequency_loop [] valores).
  split; [by apply absolute_frequency_unfold|].
  destruct (absolute_frequency_loop_spec valores []) as (? & ? & ?); by repeat split.
Qed.
End absolute_frequency_facts.

(** ** Cumulative frequency in absolute mode *)






Section cumulative_frequency_facts.
Import Statistics.



(** A method other than ['absolute'] and ['relative'] is refused, on an
    existing column, with a [ValueError]. *)
Lemma cumulative_frequency_invalid_method (self : gmap string (list value))
    (column frequency_method : string) :
  is_Some (self !! column) →
  frequency_method ≠ "absolute" → frequency_method ≠ "relative" →
  cumulative_frequency self column frequency_method = Raise ValueError.
Proof.
  intros Hcol Ha Hr. unfold cumulative_frequency, _validate_column.
  rewrite decide_True by done. cbn [bind].
  apply String.eqb_neq in Ha, Hr. by rewrite Ha, Hr.
Qed.

Example cumulative_frequency_absolute_example :
  cumulative_frequency {["c" := [VInt 5; VInt 2; VInt 5]]} "c" "absolute"
  = Ok [(VInt 2, VInt 1); (VInt 5, VInt 3)].
Proof. reflexivity. Qed.
End cumulative_frequency_facts.

(** ** Relative frequency of categorical columns *)

Lemma sum_Q_proportions (counts : list Z) (n : Z) :
  (sum_Q ((λ m, inject_Z m / inject_Z n) <$> counts)
   == inject_Z (sum_Z counts) / inject_Z n)%Q.
Proof.
  induction counts as [|m counts IH].
  - symmetry. apply (Qmult_0_l (/ inject_Z n)).
  - rewrite fmap_cons, sum_Z_cons. unfold sum_Q in *. cbn [foldr].
    rewrite IH, inject_Z_plus. unfold Qdiv. by rewrite Qmult_plus_distr_l.
Qed.

Section relative_frequency_facts.
Import Statistics.

Lemma absolute_frequency_loop_keys (P : value → Prop)
    (valores : list value) (frequencia : list (value * Z)) :
  Forall P frequencia.*1 → Forall P valores →
  Forall P (absolute_frequency_loop frequencia valores).*1.
Proof.
  revert frequencia.
  induction valores as [|x valores IH]; intros frequencia Hf Hv; [done|].
  apply Forall_cons in Hv as [Hx Hv]. cbn [absolute_frequency_loop].
  apply IH; [|done].
  assert (Hset : ∀ n, Forall P (pd_set frequencia x n).*1).
  { intros n. apply Forall_forall. intros k [Hk|[-> _]]%pd_set_keys; [|done].
    rewrite Forall_forall in Hf. by apply Hf. }
  destruct (pd_get frequencia x); apply Hset.
Qed.

Lemma pd_mem_non_numeric {V : Type} (d : list (value * V)) (n : Z) :
  Forall (λ k, is_numeric k = false) d.*1 → pd_mem d (VInt n) = false.
Proof.
  induction d as [|[k v] d IH]; [done|].
  rewrite fmap_cons. intros [Hk Hd]%Forall_cons. cbn [pd_mem].
  rewrite IH by done. cbn [fst] in Hk. by destruct k.
Qed.

(** On keys that are not numbers the guard of the loop always passes, and
    every item of the absolute frequency gets its entry. *)
Lemma relative_frequency_loop_categorical (itens : list (value * Z))
    (numero_itens : Z) (relativa : list (value * value)) :
  numero_itens ≠ 0 →
  distinct_keys (relativa.*1 ++ itens.*1) →
  Forall (λ k, is_numeric k = false) (relativa.*1 ++ itens.*1) →
  relative_frequency_loop itens numero_itens relativa
  = Ok (relativa
        ++ (prod_map id (λ m, VFloat (inject_Z m / inject_Z numero_itens))
              <$> itens)).
Proof.
  intros Hn. revert relativa.
  induction itens as [|[chave valor] itens IH]; intros relativa Hd Hcat.
  - simpl. by rewrite app_nil_r.
  - rewrite fmap_cons in Hd, Hcat. cbn [fst] in Hd, Hcat.
    cbn [relative_frequency_loop].
    rewrite pd_mem_non_numeric by (by apply Forall_app in Hcat as [? _]).
    cbn [negb py_truediv num_of].
    destruct (Qeq_bool (inject_Z numero_itens) 0) eqn:Hz.
    { apply Qeq_bool_iff in Hz. unfold Qeq in Hz. simpl in Hz. lia. }
    cbn [bind].
    assert (Hnew : pd_get relativa chave = None).
    { apply pd_get_None. apply distinct_keys_app in Hd as (_ & _ & Hd).
      eapply Forall_impl; [exact Hd|]. intros k' Hk'.
      by apply Forall_cons in Hk' as [? _]. }
    rewrite pd_set_None by done.
    rewrite IH; [by rewrite <- app_assoc| |];
      by rewrite fmap_app, <- app_assoc.
Qed.

(** X12: on a non-empty column without numeric cells (strings and nulls),
    the relative frequency has one entry per distinct value, in order of first
    appearance, holding its count divided by the number of rows, and the
    proportions sum to 1. *)
Lemma relative_frequency_categorical (self : gmap string (list value))
    (column : string) (valores : list value)
    (frequencia : list (value * Z)) :
  self !! column = Some valores → valores ≠ [] →
  Forall (λ v, is_numeric v = false) valores →
  absolute_frequency self column = Ok frequencia →
  let n := Z.of_nat (length valores) in
  relative_frequency self column
  = Ok (prod_map id (λ m, VFloat (inject_Z m / inject_Z n)) <$> frequencia)
  ∧ (sum_Q ((λ m, inject_Z m / inject_Z n) <$> frequencia.*2) == 1)%Q.
Proof.
  intros Hcol Hne Hcat Habs n.
  destruct (absolute_frequency_spec self column valores Hcol Hne)
    as (f & Hf & Hd & Hpos & Hsum).
  assert (f = frequencia) as -> by congruence.
  assert (Hn : n ≠ 0) by (destruct valores; [done|unfold n; simpl; lia]).
  split.
  - unfold relative_frequency, getitem. rewrite Habs, Hcol. cbn [bind].
    rewrite relative_frequency_loop_categorical; try done.
    rewrite (absolute_frequency_unfold _ _ _ Hcol Hne) in Habs.
    injection Habs as <-. by apply absolute_frequency_loop_keys.
  - rewrite sum_Q_proportions, Hsum. fold n.
    apply Qmult_inv_r. unfold Qeq. simpl. lia.
Qed.

Example relative_frequency_example :
  relative_frequency {["c" := [VStr "x"; VNone; VStr "x"; VStr "y"]]} "c"
  = Ok [(VStr "x", VFloat (2 # 4)); (VNone, VFloat (1 # 4));
        (VStr "y", VFloat (1 # 4))].
Proof. reflexivity. Qed.
End relative_frequency_facts.

(** ** Mode *)

Section mode_facts.
Import Statistics.

Lemma py_max_int_spec (xs : list Z) :
  xs ≠ [] →
  ∃ m, py_max_int xs = Ok m ∧ m ∈ xs ∧ Forall (λ n, n ≤ m) xs.
Proof.
  destruct xs as [|x xs]; [done|]. intros _. cbn [py_max_int].
  eexists. split; [done|]. revert x.
  induction xs as [|y xs IH]; intros x.
  - simpl. split; [apply list_elem_of_here|]. by repeat constructor.
  - cbn [foldl]. case_bool_decide as Hgt.
    + destruct (IH y) as [Hin Hall]. split; [by apply list_elem_of_further|].
      apply Forall_cons in Hall as [Hy Hall].
      repeat constructor; try done. lia.
    + destruct (IH x) as [Hin Hall]. split.
      * apply elem_of_cons in Hin as [->|Hin]; [apply list_elem_of_here|].
        by do 2 apply list_elem_of_further.
      * apply Forall_cons in Hall as [Hx Hall].
        repeat constructor; try done. lia.
Qed.

(** On a column with a non-null cell, [mode] returns, in order of first
    appearance, the keys of the absolute frequency of the whole column
    whose count is the greatest count. *)
Lemma mode_spec (self : gmap string (list value)) (column : string)
    (valores : list value) :
  self !! column = Some valores →
  Exists (λ v, is_none v = false) valores →
  ∃ frequencia m,
    absolute_frequency self column = Ok frequencia
    ∧ m ∈ frequencia.*2 ∧ Forall (λ n, n ≤ m) frequencia.*2
    ∧ mode self column
      = Ok (filter (fun kv => bool_decide (kv.2 = m)) frequencia).*1.
Proof.
  intros Hcol Hex.
  assert (Hne : valores ≠ []) by (by destruct Hex).
  destruct (absolute_frequency_spec self column valores Hcol Hne)
    as (frequencia & Habs & _ & _ & Hsum).
  assert (Hfne : frequencia.*2 ≠ []).
  { intros Hnil. rewrite Hnil in Hsum. destruct valores; [done|].
    unfold sum_Z in Hsum. simpl in Hsum. lia. }
  destruct (py_max_int_spec _ Hfne) as (m & Hmax & Hin & Hall).
  exists frequencia, m. repeat split; try done.
  unfold mode, _validate_column, getitem.
  rewrite Hcol, decide_True by eauto. cbn [bind].
  rewrite bool_decide_false.
  - rewrite Habs. cbn [bind]. by rewrite Hmax.
  - apply Exists_exists in Hex as (v & Hv & Hnn). intros Hnil.
    assert (v ∈ filter (fun v => negb (is_none v)) valores) as Hin'.
    { apply list_elem_of_filter. split; [by rewrite Hnn|done]. }
    rewrite Hnil in Hin'. by apply not_elem_of_nil in Hin'.
Qed.

(** On a column without nulls no mode is null. *)
Lemma mode_no_null (self : gmap string (list value)) (column : string)
    (valores modas : list value) :
  self !! column = Some valores →
  Forall (λ v, is_none v = false) valores →
  mode self column = Ok modas →
  Forall (λ v, is_none v = false) modas.
Proof.
  intros Hcol Hnn Hmode.
  destruct valores as [|v valores].
  { unfold mode, _validate_column, getitem in Hmode.
    rewrite Hcol, decide_True in Hmode by eauto. done. }
  destruct (mode_spec self column (v :: valores) Hcol)
    as (frequencia & m & Habs & _ & _ & Hm).
  { apply Exists_cons_hd. by apply Forall_cons in Hnn as [? _]. }
  rewrite (absolute_frequency_unfold _ _ _ Hcol) in Habs by done.
  injection Habs as <-. rewrite Hm in Hmode. injection Hmode as <-.
  apply Forall_forall. intros k ([k' n] & -> & [_ Hk]%list_elem_of_filter)%list_elem_of_fmap.
  pose proof (absolute_frequency_loop_keys (λ v, is_none v = false)
                (v :: valores) [] ltac:(done) Hnn) as Hkeys.
  rewrite Forall_forall in Hkeys. apply Hkeys.
  apply list_elem_of_fmap. by exists (k', n).
Qed.
End mode_facts.

(** ** Reading and writing dictionaries keyed by cells *)

Section pydict_lookup.
Context {V : Type}.
Implicit Types (d : list (value * V)) (k x : value) (v : V).

(** Equal cells read the same entry. *)
Lemma pd_get_proper d x k : py_eq x k = true → pd_get d x = pd_get d k.
Proof.
  intros Hxk. induction d as [|[k0 v0] d IH]; cbn [pd_get]; [done|].
  destruct (py_eq k0 x) eqn:H0x.
  - by rewrite (py_eq_trans k0 x k).
  - destruct (py_eq k0 k) eqn:H0k; [|done].
    rewrite py_eq_sym in Hxk. by rewrite (py_eq_trans k0 k x) in H0x.
Qed.

(** Reading after writing: the written key, and every cell equal to it,
    reads the written value; any other key reads what it read before. *)
Lemma pd_get_set d x v k :
  pd_get (pd_set d x v) k = if py_eq x k then Some v else pd_get d k.
Proof.
  induction d as [|[k0 v0] d IH]; cbn [pd_get pd_set]; [done|].
  destruct (py_eq k0 x) eqn:H0x; cbn [pd_get].
  - destruct (py_eq x k) eqn:Hxk.
    + by rewrite (py_eq_trans k0 x k).
    + destruct (py_eq k0 k) eqn:H0k; [|done].
      rewrite py_eq_sym in H0x. by rewrite (py_eq_trans x k0 k) in Hxk.
  - rewrite IH. destruct (py_eq k0 k) eqn:H0k; [|done].
    destruct (py_eq x k) eqn:Hxk; [|done].
    rewrite py_eq_sym in Hxk. by rewrite (py_eq_trans k0 k x) in H0x.
Qed.

Lemma pd_set_keys_eq d x v :
  (pd_set d x v).*1
  = if existsb (fun y => py_eq y x) d.*1 then d.*1 else d.*1 ++ [x].
Proof.
  induction d as [|[k0 v0] d IH]; cbn [pd_set]; [done|].
  rewrite !fmap_cons. cbn [fst existsb].
  destruct (py_eq k0 x); cbn [orb]; [done|].
  rewrite fmap_cons, IH. by destruct (existsb _ d.*1).
Qed.
End pydict_lookup.

Lemma py_set_distinct (xs : list value) : distinct_keys (py_set xs).
Proof.
  induction xs as [|x xs IH] using rev_ind; [done|].
  rewrite py_set_snoc. destruct (existsb _ (py_set xs)) eqn:Hex; [done|].
  apply distinct_keys_app. split; [done|]. split; [by split|].
  apply Forall_forall. intros y Hy. repeat constructor.
  destruct (py_eq y x) eqn:Hyx; [|done].
  assert (existsb (λ y, py_eq y x) (py_set xs) = true) as Hex'; [|congruence].
  apply existsb_exists. exists y. split; [by apply list_elem_of_In|done].
Qed.

Lemma pairs_of_keys {A : Type} (f : value → A) (d : list (value * A)) :
  d.*2 = f <$> d.*1 → d = (λ k, (k, f k)) <$> d.*1.
Proof.
  induction d as [|[k n] d IH]; [done|].
  rewrite !fmap_cons. cbn [fst snd]. intros [= -> Hv]. f_equal. by apply IH.
Qed.

Section counting.
Import Statistics.

Lemma absolute_frequency_loop_keys_eq (valores : list value)
    (frequencia : list (value * Z)) :
  (absolute_frequency_loop frequencia valores).*1
  = foldl (fun s x => if existsb (fun y => py_eq y x) s then s else s ++ [x])
          frequencia.*1 valores.
Proof.
  revert frequencia. induction valores as [|x valores IH]; intros d; [done|].
  cbn [absolute_frequency_loop foldl]. rewrite IH. f_equal.
  destruct (pd_get d x); apply pd_set_keys_eq.
Qed.

Lemma absolute_frequency_loop_count (valores : list value)
    (frequencia : list (value * Z)) (k : value) :
  default 0 (pd_get (absolute_frequency_loop frequencia valores) k)
  = default 0 (pd_get frequencia k) + count_eq k valores.
Proof.
  revert frequencia. induction valores as [|x valores IH]; intros d.
  - simpl. lia.
  - cbn [absolute_frequency_loop count_eq]. rewrite IH.
    assert (Hstep : ∀ n, default 0 (pd_get (pd_set d x n) k)
                         = if py_eq x k then n else default 0 (pd_get d k)).
    { intros n. rewrite pd_get_set. by destruct (py_eq x k). }
    destruct (py_eq x k) eqn:Hxk.
    + rewrite <- (pd_get_proper d x k Hxk).
      destruct (pd_get d x) as [n|]; rewrite Hstep; simpl; lia.
    + destruct (pd_get d x) as [n|]; rewrite Hstep; simpl; lia.
Qed.

(** The absolute frequency as a table: one entry per distinct value, in
    order of first appearance, holding the number of cells equal to it. *)
Lemma absolute_frequency_table (self : gmap string (list value))
    (column : string) (valores : list value) :
  self !! column = Some valores → valores ≠ [] →
  absolute_frequency self column
  = Ok ((λ k, (k, count_eq k valores)) <$> py_set valores).
Proof.
  intros Hcol Hne. rewrite (absolute_frequency_unfold _ _ _ Hcol Hne).
  f_equal. set (d := absolute_frequency_loop [] valores).
  assert (Hkeys : d.*1 = py_set valores)
    by apply (absolute_frequency_loop_keys_eq valores []).
  assert (Hd : distinct_keys d.*1) by (rewrite Hkeys; apply py_set_distinct).
  assert (Hvals : d.*2 = (λ k, count_eq k valores) <$> d.*1).
  { apply (inj (fmap (M:=list) (@Some Z))). rewrite <- pd_get_own by done.
    rewrite <- (list_fmap_compose (λ k, count_eq k valores) Some).
    apply list_fmap_ext. intros i k Hk. simpl.
    pose proof (absolute_frequency_loop_count valores [] k) as Hc.
    fold d in Hc. simpl in Hc.
    destruct (pd_get d k) as [n|] eqn:Hget; [simpl in Hc; by subst|].
    apply pd_get_None in Hget. rewrite Forall_forall in Hget.
    apply list_elem_of_lookup_2 in Hk. specialize (Hget k Hk).
    by rewrite py_eq_refl in Hget. }
  rewrite <- Hkeys. by apply (pairs_of_keys (λ k, count_eq k valores)).
Qed.

(** X1: the absolute frequency of an existing, non-empty column has one
    entry per distinct value of the column, in order of first appearance;
    the entry of a value holds the number of cells equal to it (nulls are
    counted like any other value), and the counts sum to the number of
    rows. *)
Theorem absolute_frequency_counts (self : gmap string (list value))
    (column : string) (valores : list value) :
  self !! column = Some valores → valores ≠ [] →
  absolute_frequency self column
  = Ok ((λ k, (k, count_eq k valores)) <$> py_set valores)
  ∧ sum_Z ((λ k, count_eq k valores) <$> py_set valores)
    = Z.of_nat (length valores).
Proof.
  intros Hcol Hne.
  pose proof (absolute_frequency_table self column valores Hcol Hne) as Htab.
  split; [done|].
  destruct (absolute_frequency_spec self column valores Hcol Hne)
    as (f & Hf & _ & _ & Hsum).
  rewrite Htab in Hf. injection Hf as <-.
  by rewrite <- list_fmap_compose in Hsum.
Qed.

Lemma absolute_frequency_counts_witness :
  let valores := [VInt 2; VNone; VFloat 2; VNone; VStr "a"] in
  absolute_frequency {["c" := valores]} "c"
  = Ok ((λ k, (k, count_eq k valores)) <$> py_set valores)
  ∧ sum_Z ((λ k, count_eq k valores) <$> py_set valores)
    = Z.of_nat (length valores).
Proof.
  apply (absolute_frequency_counts
           {["c" := [VInt 2; VNone; VFloat 2; VNone; VStr "a"]]} "c");
    [reflexivity|discriminate].
Defined.

(** X2: the item set of an existing, non-empty column consists of cells of
    the column, holds a cell equal to each cell of the column, has no two
    equal members, and is the list of keys of the absolute frequency. *)
Theorem itemset_spec (self : gmap string (list value)) (column : string)
    (valores : list value) :
  self !! column = Some valores → valores ≠ [] →
  ∃ itens,
    itemset self column = Ok itens
    ∧ distinct_keys itens
    ∧ (∀ y, y ∈ itens → y ∈ valores)
    ∧ (∀ x, x ∈ valores → ∃ y, y ∈ itens ∧ py_eq y x = true)
    ∧ ∃ frequencia,
        absolute_frequency self column = Ok frequencia
        ∧ frequencia.*1 = itens.
Proof.
  intros Hcol Hne. exists (py_set valores).
  destruct (py_set_spec valores) as [Hsub Hcover].
  split; [|split; [apply py_set_distinct|split; [done|split; [done|]]]].
  - unfold itemset, _validate_column, getitem.
    rewrite Hcol, decide_True by eauto. cbn [bind]. by rewrite bool_decide_false.
  - eexists. split; [by apply absolute_frequency_unfold|].
    apply (absolute_frequency_loop_keys_eq valores []).
Qed.

Lemma itemset_spec_witness :
  let valores := [VInt 2; VNone; VFloat 2; VNone; VStr "a"] in
  ∃ itens,
    itemset {["c" := valores]} "c" = Ok itens
    ∧ distinct_keys itens
    ∧ (∀ y, y ∈ itens → y ∈ valores)
    ∧ (∀ x, x ∈ valores → ∃ y, y ∈ itens ∧ py_eq y x = true)
    ∧ ∃ frequencia,
        absolute_frequency {["c" := valores]} "c" = Ok frequencia
        ∧ frequencia.*1 = itens.
Proof.
  apply (itemset_spec {["c" := [VInt 2; VNone; VFloat 2; VNone; VStr "a"]]} "c");
    [reflexivity|discriminate].
Defined.
End counting.

(** ** Sums of cells *)










Section mean_facts.
Import Statistics.






End mean_facts.

(** ** Sorting numbers, and sorting nulls *)



Lemma py_lt_none_l (y : value) : py_lt VNone y = Raise TypeError.
Proof. by destruct y. Qed.

Lemma py_lt_none_r (x : value) : py_lt x VNone = Raise TypeError.
Proof. by destruct x. Qed.

(** A list holding a null sorts only when the null is its one cell. *)
Lemma py_sorted_with_none (xs s : list value) :
  py_sorted xs = Ok s → VNone ∈ xs → xs = [VNone].
Proof.
  revert s. induction xs as [|x xs IH] using rev_ind; intros s.
  - by intros _ ?%not_elem_of_nil.
  - rewrite py_sorted_snoc.
    destruct (py_sorted xs) as [l|] eqn:Hs; cbn [bind]; [|done].
    intros Hins [Hin|Hin%list_elem_of_singleton]%elem_of_app.
    + rewrite (IH l eq_refl Hin) in Hs. injection Hs as <-.
      cbn [py_insert] in Hins. by rewrite py_lt_none_r in Hins.
    + subst x. destruct l as [|y l].
      * apply py_sorted_Ok in Hs. symmetry in Hs.
        by apply Permutation_nil_r in Hs as ->.
      * cbn [py_insert] in Hins. by rewrite py_lt_none_l in Hins.
Qed.

Lemma py_sorted_none_raises (xs : list value) :
  VNone ∈ xs → (2 ≤ length xs)%nat → py_sorted xs = Raise TypeError.
Proof.
  intros Hin Hlen. destruct (py_sorted xs) as [s|e] eqn:Hs.
  - rewrite (py_sorted_with_none xs s Hs Hin) in Hlen. simpl in Hlen. lia.
  - by rewrite (py_sorted_raises xs e Hs).
Qed.


Lemma all_numeric_Forall (xs : list value) :
  Statistics.all_numeric xs = true ↔ Forall (λ v, is_numeric v = true) xs.
Proof.
  unfold Statistics.all_numeric. rewrite forallb_forall, Forall_forall.
  by setoid_rewrite list_elem_of_In.
Qed.

Lemma elem_of_validos (v : value) (valores : list value) :
  v ∈ validos valores ↔ v ∈ valores ∧ is_none v = false.
Proof.
  unfold validos. rewrite list_elem_of_filter.
  destruct (is_none v); simpl; intuition (done || auto).
Qed.

Section median_facts.
Import Statistics.

Lemma median_unfold (self : gmap string (list value)) (column : string)
    (valores : list value) :
  self !! column = Some valores → validos valores ≠ [] →
  Forall (λ v, is_numeric v = true) (validos valores) →
  median self column
  = (coluna_ordenada <~ lift (py_sorted valores);;
     if bool_decide (length valores mod 2 = 0)%nat then
       a <~ py_index coluna_ordenada (length valores / 2 - 1);;
       b <~ py_index coluna_ordenada (length valores / 2);;
       soma <~ lift (py_add a b);;
       lift (py_truediv soma (VInt 2))
     else py_index coluna_ordenada (length valores / 2)).
Proof.
  intros Hcol Hne Hnum. unfold median, _validate_column, getitem.
  rewrite Hcol, decide_True by eauto. cbn [lift obind].
  fold (validos valores). rewrite bool_decide_false by done.
  apply all_numeric_Forall in Hnum. by rewrite Hnum.
Qed.



(** X6: on a column of two or more rows that has a null cell and whose
    non-null cells are numbers, [median] raises a type error: it checks
    the null-filtered cells but sorts the whole column, null included. *)
Theorem median_with_null (self : gmap string (list value)) (column : string)
    (valores : list value) :
  self !! column = Some valores →
  VNone ∈ valores → (2 ≤ length valores)%nat →
  validos valores ≠ [] →
  Forall (λ v, is_numeric v = true) (validos valores) →
  median self column = Throw (Err TypeError).
Proof.
  intros Hcol Hnone Hlen Hne Hnum.
  rewrite (median_unfold self column valores Hcol Hne Hnum).
  by rewrite py_sorted_none_raises.
Qed.

Lemma median_with_null_witness :
  median {["c" := [VInt 3; VNone; VInt 1]]} "c" = Throw (Err TypeError).
Proof.
  apply (median_with_null _ "c" [VInt 3; VNone; VInt 1]).
  - reflexivity.
  - apply list_elem_of_further, list_elem_of_here.
  - simpl. lia.
  - discriminate.
  - repeat constructor.
Defined.

(** [median] returns a value only on a column without nulls. *)
Lemma median_returns_no_null (self : gmap string (list value))
    (column : string) (valores : list value) (m : value) :
  self !! column = Some valores →
  median self column = Return m → VNone ∉ valores.
Proof.
  intros Hcol Hm Hnone. unfold median, _validate_column, getitem in Hm.
  rewrite Hcol, decide_True in Hm by eauto. cbn [lift obind] in Hm.
  fold (validos valores) in Hm.
  case_bool_decide as Hne; [done|].
  destruct (all_numeric (validos valores)) eqn:Hnum; [|done]. cbn [negb] in Hm.
  destruct (py_sorted valores) as [s|] eqn:Hs; [|done].
  pose proof (py_sorted_with_none _ _ Hs Hnone) as ->.
  by apply Hne.
Qed.
End median_facts.

(** ** Variance and standard deviation *)

Section variance_facts.
Import Statistics.










(** [variance] returns a float whenever it returns. *)
Lemma variance_returns_float (self : gmap string (list value))
    (column : string) (v : value) :
  variance self column = Ok v → is_numeric v = true.
Proof.
  unfold variance. destruct (mean self column); [|done]. cbn [bind].
  destruct (_validate_column self column); [|done]. cbn [bind].
  destruct (getitem self column); [|done]. cbn [bind].
  case_bool_decide; [done|].
  destruct (foldl _ _ _) as [s|]; [|done]. cbn [bind].
  unfold py_truediv. destruct (num_of s); [|done].
  cbn [num_of]. destruct (Qeq_bool _ 0); [done|]. by intros [= <-].
Qed.

Lemma mean_absent (self : gmap string (list value)) (column : string) :
  self !! column = None → mean self column = Raise KeyError.
Proof.
  intros Hcol. unfold mean, _validate_column. rewrite decide_False; [done|].
  rewrite Hcol. by intros [? [=]].
Qed.

Lemma mean_no_valid (self : gmap string (list value)) (column : string)
    (valores : list value) :
  self !! column = Some valores → validos valores = [] →
  mean self column = Raise ValueError.
Proof.
  intros Hcol Hnil. unfold mean, _validate_column, getitem.
  rewrite Hcol, decide_True by eauto. cbn [bind].
  fold (validos valores). by rewrite bool_decide_true.
Qed.

(** [stdev] raises exactly when [variance] does, with the same
    exception, and otherwise returns the [** 0.5] of the variance: its own
    checks of the column never decide the outcome. *)
Theorem stdev_of_variance (pow_half : Q → Q)
    (self : gmap string (list value)) (column : string) :
  stdev pow_half self column
  = match variance self column with
    | Ok v => Ok (VFloat (pow_half (qval v)))
    | Raise e => Raise e
    end.
Proof.
  destruct (self !! column) as [valores|] eqn:Hcol.
  - destruct (decide (validos valores = [])) as [Hnil|Hne].
    + unfold variance. rewrite (mean_no_valid _ _ _ Hcol Hnil). cbn [bind].
      unfold stdev, _validate_column, getitem.
      rewrite Hcol, decide_True by eauto. cbn [bind].
      fold (validos valores). by rewrite bool_decide_true.
    + unfold stdev, _validate_column, getitem.
      rewrite Hcol, decide_True by eauto. cbn [bind].
      fold (validos valores). rewrite bool_decide_false by done.
      destruct (variance self column) as [v|e] eqn:Hvar; [|done]. cbn [bind].
      unfold py_pow_half.
      by rewrite (num_of_numeric v (variance_returns_float _ _ _ Hvar)).
  - unfold variance. rewrite (mean_absent _ _ Hcol). cbn [bind].
    unfold stdev, _validate_column. rewrite decide_False; [done|].
    rewrite Hcol. by intros [? [=]].
Qed.
End variance_facts.

(** ** Conditional probability lies in the unit interval *)

Section conditional_probability_bounds.
Import Statistics.

Lemma scan_pairs_counts (valores : list value) (value1 value2 : value)
    (evento_b evento_a_b : Z) :
  let r := scan_pairs valores value1 value2 (evento_b, evento_a_b) in
  r.1 = evento_b + count_eq value2 (predecessores valores)
  ∧ evento_a_b ≤ r.2 ∧ r.2 - evento_a_b ≤ r.1 - evento_b.
Proof.
  revert evento_b evento_a_b.
  induction valores as [|x valores IH]; intros b ab.
  - simpl. lia.
  - destruct valores as [|y valores].
    + simpl. lia.
    + assert (Hpre : predecessores (x :: y :: valores)
                     = x :: predecessores (y :: valores)).
      { unfold predecessores. cbn [length]. by rewrite !Nat.sub_succ, !Nat.sub_0_r. }
      rewrite Hpre. cbn [count_eq].
      change (scan_pairs (x :: y :: valores) value1 value2 (b, ab))
        with (scan_pairs (y :: valores) value1 value2
                (if py_eq x value2 then
                   (b + 1, if py_eq y value1 then ab + 1 else ab)
                 else (b, ab))).
      destruct (py_eq x value2).
      * destruct (IH (b + 1) (if py_eq y value1 then ab + 1 else ab))
          as (H1 & H2 & H3).
        destruct (py_eq y value1); cbv zeta in *; lia.
      * destruct (IH b ab) as (H1 & H2 & H3). cbv zeta in *. lia.
Qed.

(** X9: on an existing column [conditional_probability] never raises.
    The B-count is the number of cells equal to [value2] among all cells
    but the last.  When the column has fewer than two rows or the B-count
    is zero, the call returns a [KeyError] instance; otherwise it returns
    a float between 0 and 1. *)
Theorem conditional_probability_unit_interval
    (self : gmap string (list value)) (column : string)
    (valores : list value) (value1 value2 : value) :
  self !! column = Some valores →
  let evento_b := count_eq value2 (predecessores valores) in
  if bool_decide ((length valores < 2)%nat ∨ evento_b = 0) then
    conditional_probability self column value1 value2
    = Ok (OException KeyError)
  else
    ∃ q, conditional_probability self column value1 value2
         = Ok (OValue (VFloat q))
         ∧ (0 <= q)%Q ∧ (q <= 1)%Q.
Proof.
  intros Hcol evento_b.
  rewrite (conditional_probability_cases self column valores _ _ Hcol).
  destruct (scan_pairs_counts valores value1 value2 0 0) as (Hb & Hlo & Hhi).
  cbv zeta in *. fold evento_b in Hb.
  destruct (scan_pairs valores value1 value2 (0, 0)) as [b ab].
  cbn [fst snd] in *.
  case_bool_decide as Hcase.
  - case_bool_decide as Hlen; [done|].
    rewrite bool_decide_true; [done|]. destruct Hcase; [done|lia].
  - rewrite bool_decide_false by tauto.
    rewrite bool_decide_false by (intros ->; apply Hcase; right; lia).
    eexists. split; [done|].
    assert (Hpos : (0 < inject_Z b)%Q).
    { rewrite <- (Zlt_Qlt 0).
      assert (0 ≤ evento_b); [|lia]. unfold evento_b.
      generalize (predecessores valores). intros l.
      induction l as [|v l IHl]; simpl; [lia|]. destruct (py_eq v value2); lia. }
    split.
    + apply Qle_shift_div_l; [done|]. rewrite Qmult_0_l.
      rewrite <- (Zle_Qle 0). lia.
    + apply Qle_shift_div_r; [done|]. rewrite Qmult_1_l.
      rewrite <- Zle_Qle. lia.
Qed.

Lemma conditional_probability_unit_interval_witness :
  ∃ q, conditional_probability
         {["c" := [VStr "B"; VStr "A"; VStr "B"; VStr "C"]]} "c"
         (VStr "A") (VStr "B")
       = Ok (OValue (VFloat q))
       ∧ (0 <= q)%Q ∧ (q <= 1)%Q.
Proof.
  apply (conditional_probability_unit_interval
           {["c" := [VStr "B"; VStr "A"; VStr "B"; VStr "C"]]} "c"
           [VStr "B"; VStr "A"; VStr "B"; VStr "C"] (VStr "A") (VStr "B")).
  reflexivity.
Defined.
End conditional_probability_bounds.

(** ** Mode, and the errors of the frequency operations *)

Lemma filter_fmap_keys (f : value → Z) (m : Z) (l : list value) :
  (filter (fun kv => bool_decide (kv.2 = m)) ((λ k, (k, f k)) <$> l)).*1
  = filter (λ k, f k = m) l.
Proof.
  induction l as [|k l IH]; [done|].
  rewrite fmap_cons. destruct (decide (f k = m)) as [Heq|Hne].
  - rewrite !filter_cons_True; [|done|by apply bool_decide_pack].
    rewrite fmap_cons. by f_equal.
  - rewrite !filter_cons_False; [done|done|].
    simpl. intros ?%bool_decide_unpack. done.
Qed.

Lemma count_eq_nonneg (k : value) (valores : list value) :
  0 ≤ count_eq k valores.
Proof.
  induction valores as [|v l IH]; simpl; [lia|]. destruct (py_eq v k); lia.
Qed.

Lemma count_eq_proper (k k' : value) (valores : list value) :
  py_eq k k' = true → count_eq k valores = count_eq k' valores.
Proof.
  intros Hk. induction valores as [|v l IH]; [done|]. simpl. rewrite IH. f_equal.
  destruct (py_eq v k) eqn:Hvk.
  - by rewrite (py_eq_trans v k k').
  - destruct (py_eq v k') eqn:Hvk'; [|done].
    rewrite py_eq_sym in Hk. by rewrite (py_eq_trans v k' k) in Hvk.
Qed.

Section mode_and_errors.
Import Statistics.

(** X10: on an existing column with a non-null cell, [mode] returns the
    distinct values of the whole column whose number of occurrences is the
    greatest, in order of first appearance; there is at least one, and
    nulls compete like any other value. *)
Theorem mode_most_frequent (self : gmap string (list value))
    (column : string) (valores : list value) :
  self !! column = Some valores →
  Exists (λ v, is_none v = false) valores →
  ∃ m,
    mode self column
    = Ok (filter (λ k, count_eq k valores = m) (py_set valores))
    ∧ (∀ v, count_eq v valores ≤ m)
    ∧ ∃ k, k ∈ filter (λ k, count_eq k valores = m) (py_set valores).
Proof.
  intros Hcol Hex.
  assert (Hne : valores ≠ []) by (by destruct Hex).
  destruct (mode_spec self column valores Hcol Hex)
    as (frequencia & m & Habs & Hin & Hmax & Hmode).
  rewrite (absolute_frequency_table self column valores Hcol Hne) in Habs.
  injection Habs as <-. exists m.
  rewrite <- list_fmap_compose in Hin, Hmax.
  split; [by rewrite Hmode, filter_fmap_keys|]. split.
  - intros v. destruct (existsb (λ x, py_eq x v) valores) eqn:Hv.
    + apply existsb_exists in Hv as (x & Hx%list_elem_of_In & Hxv).
      destruct (py_set_spec valores) as [_ Hcover].
      destruct (Hcover x Hx) as (y & Hy & Hyx).
      rewrite <- (count_eq_proper y v valores (py_eq_trans _ _ _ Hyx Hxv)).
      rewrite Forall_forall in Hmax. apply Hmax.
      apply list_elem_of_fmap. by exists y.
    + assert (count_eq v valores = 0) as ->.
      { clear -Hv. induction valores as [|x l IH]; [done|].
        cbn [existsb] in Hv. apply orb_false_iff in Hv as [Hxv Hl].
        simpl. by rewrite Hxv, IH. }
      apply list_elem_of_fmap in Hin as (k & -> & _). simpl.
      apply count_eq_nonneg.
  - apply list_elem_of_fmap in Hin as (k & Hk & Hin). exists k.
    apply list_elem_of_filter. by split.
Qed.

Lemma mode_most_frequent_witness :
  let valores := [VInt 1; VNone; VFloat 1; VNone; VStr "a"] in
  ∃ m,
    mode {["c" := valores]} "c"
    = Ok (filter (λ k, count_eq k valores = m) (py_set valores))
    ∧ (∀ v, count_eq v valores ≤ m)
    ∧ ∃ k, k ∈ filter (λ k, count_eq k valores = m) (py_set valores).
Proof.
  apply (mode_most_frequent
           {["c" := [VInt 1; VNone; VFloat 1; VNone; VStr "a"]]} "c").
  - reflexivity.
  - apply Exists_cons_hd. reflexivity.
Defined.

(** The frequency operations share their error behaviour: on a name
    that is not a column each raises a lookup error, and on a column with
    no rows each raises a domain error, [cumulative_frequency] whatever
    the method. *)
Theorem frequency_errors (self : gmap string (list value))
    (column frequency_method : string) :
  match self !! column with
  | None =>
      absolute_frequency self column = Raise KeyError
      ∧ relative_frequency self column = Raise KeyError
      ∧ cumulative_frequency self column frequency_method = Raise KeyError
      ∧ itemset self column = Raise KeyError
      ∧ mode self column = Raise KeyError
  | Some [] =>
      absolute_frequency self column = Raise ValueError
      ∧ relative_frequency self column = Raise ValueError
      ∧ cumulative_frequency self column frequency_method = Raise ValueError
      ∧ itemset self column = Raise ValueError
      ∧ mode self column = Raise ValueError
  | Some _ => True
  end.
Proof.
  destruct (self !! column) as [[|v valores]|] eqn:Hcol; [|done|].
  - assert (Habs : absolute_frequency self column = Raise ValueError).
    { unfold absolute_frequency, _validate_column, getitem.
      by rewrite Hcol, decide_True by eauto. }
    repeat split; try done.
    + unfold relative_frequency. by rewrite Habs.
    + unfold cumulative_frequency, relative_frequency, _validate_column.
      rewrite decide_True by eauto. cbn [bind]. rewrite Habs.
      by destruct (negb _), (String.eqb frequency_method "absolute").
    + unfold itemset, _validate_column, getitem.
      by rewrite Hcol, decide_True by eauto.
    + unfold mode, _validate_column, getitem.
      by rewrite Hcol, decide_True by eauto.
  - assert (Hval : _validate_column self column = Raise KeyError).
    { unfold _validate_column. rewrite decide_False; [done|].
      rewrite Hcol. by intros [? [=]]. }
    unfold relative_frequency, cumulative_frequency, absolute_frequency,
      itemset, mode. by rewrite Hval.
Qed.
End mode_and_errors.


Lemma relative_frequency_categorical_witness :
  let valores := [VStr "x"; VNone; VStr "x"; VStr "y"] in
  let n := Z.of_nat (length valores) in
  let frequencia : list (value * Z) :=
    [(VStr "x", 2); (VNone, 1); (VStr "y", 1)] in
  Statistics.relative_frequency {["c" := valores]} "c"
  = Ok (prod_map id (λ m, VFloat (inject_Z m / inject_Z n)) <$> frequencia)
  ∧ (sum_Q ((λ m, inject_Z m / inject_Z n) <$> frequencia.*2) == 1)%Q.
Proof.
  apply (relative_frequency_categorical
           {["c" := [VStr "x"; VNone; VStr "x"; VStr "y"]]} "c"
           [VStr "x"; VNone; VStr "x"; VStr "y"]
           [(VStr "x", 2); (VNone, 1); (VStr "y", 1)]).
  - reflexivity.
  - discriminate.
  - repeat constructor.
  - reflexivity.
Defined.

(** ** Label encoding: codes and categories *)

Lemma pd_get_Some_lookup {V : Type} (d : list (value * V)) (k : value) (v : V) :
  pd_get d k = Some v →
  ∃ i k', d !! i = Some (k', v) ∧ py_eq k' k = true.
Proof.
  induction d as [|[k0 v0] d IH]; cbn [pd_get]; [done|].
  destruct (py_eq k0 k) eqn:Heq.
  - intros [= ->]. by exists 0%nat, k0.
  - intros (i & k' & Hi & Hk)%IH. by exists (S i), k'.
Qed.

Section label_codes.
Import Encoder.

Lemma mapa_de_from (categorias : list value) (n : nat)
    (mapa : list (value * Z)) :
  distinct_keys (mapa.*1 ++ categorias) →
  foldl (fun mapa ic => pd_set mapa ic.2 ic.1) mapa
        (imap (fun i categoria => (Z.of_nat (n + i), categoria)) categorias)
  = mapa ++ imap (fun i categoria => (categoria, Z.of_nat (n + i))) categorias.
Proof.
  revert n mapa. induction categorias as [|c cs IH]; intros n mapa Hd.
  - simpl. by rewrite app_nil_r.
  - rewrite !imap_cons. cbn [foldl fst snd].
    assert (Hnew : pd_get mapa c = None).
    { apply pd_get_None. apply distinct_keys_app in Hd as (_ & _ & Hd).
      eapply Forall_impl; [exact Hd|]. intros k' Hk'.
      by apply Forall_cons in Hk' as [? _]. }
    rewrite pd_set_None by done.
    rewrite (imap_ext _ (fun i categoria => (Z.of_nat (S n + i), categoria)))
      by (intros i x _; simpl; do 2 f_equal; lia).
    rewrite IH by (by rewrite fmap_app, <- app_assoc).
    rewrite <- app_assoc. cbn [app]. do 2 f_equal.
    apply imap_ext. intros i x _. simpl. do 2 f_equal. lia.
Qed.

(** The category map of pairwise different categories sends each to its
    position. *)
Lemma mapa_de_distinct (categorias : list value) :
  distinct_keys categorias →
  mapa_de categorias
  = imap (fun i categoria => (categoria, Z.of_nat i)) categorias.
Proof.
  intros Hd. exact (mapa_de_from categorias 0 [] Hd).
Qed.

Lemma categorias_de_sorted (valores categorias : list value) :
  categorias_de valores = Ok categorias →
  distinct_keys categorias ∧ ascending categorias.
Proof.
  intros Hcat. pose proof (py_sorted_Ok _ _ Hcat) as Hp.
  pose proof (py_set_distinct (filter (fun v => negb (is_none v)) valores)) as Hd.
  split.
  - eapply distinct_keys_perm; [symmetry; exact Hp|done].
  - by eapply py_sorted_ascending.
Qed.

(** The codes of a column whose categories sort. *)
Lemma label_column_codes (valores categorias : list value) :
  categorias_de valores = Ok categorias →
  ∃ codificadas,
    label_column valores = Ok codificadas
    ∧ Forall2 (label_cell categorias) valores codificadas.
Proof.
  intros Hcat. unfold label_column. rewrite Hcat. cbn [bind].
  apply for_each_Forall2. intros v Hv.
  destruct (is_none v) eqn:Hnn.
  - exists VNone. split; [done|]. left. by destruct v.
  - destruct (mapa_de_covers valores categorias v Hcat Hv Hnn) as [z Hz].
    unfold pd_getitem. rewrite Hz. cbn [bind].
    exists (VInt z). split; [done|]. right. split; [done|].
    rewrite mapa_de_distinct in Hz by (by eapply categorias_de_sorted).
    apply pd_get_Some_lookup in Hz as (i & k & Hi & Hk).
    apply list_lookup_imap_Some in Hi as (c & Hc & [= -> ->]). by exists i, c.
Qed.

(** [label_encode] does not touch the columns it is not asked to encode. *)
Lemma label_encode_frame (columns : list string)
    (self : gmap string (list value)) (c : string) :
  c ∉ columns → (label_encode self columns).1 !! c = self !! c.
Proof.
  revert self. induction columns as [|coluna resto IH]; intros self Hc; [done|].
  apply not_elem_of_cons in Hc as [Hne Hc]. cbn [label_encode].
  destruct (self !! coluna) as [valores|] eqn:Hcol; [|by apply IH].
  destruct (label_column valores) as [cod|e]; [|done].
  rewrite IH by done. by rewrite lookup_insert_ne.
Qed.

Lemma label_encode_lookup (columns : list string)
    (self : gmap string (list value)) :
  NoDup columns →
  (∀ c valores, c ∈ columns → self !! c = Some valores →
     ∃ categorias, categorias_de valores = Ok categorias) →
  (label_encode self columns).2 = Ok ()
  ∧ ∀ c valores, c ∈ columns → self !! c = Some valores →
      ∃ codificadas,
        label_column valores = Ok codificadas
        ∧ (label_encode self columns).1 !! c = Some codificadas.
Proof.
  revert self. induction columns as [|coluna resto IH]; intros self Hnd Hsort.
  - split; [done|]. by intros c valores ?%not_elem_of_nil.
  - apply NoDup_cons in Hnd as [Hnotin Hnd]. cbn [label_encode].
    destruct (self !! coluna) as [valores0|] eqn:Hcol.
    + destruct (Hsort coluna valores0) as [cats Hcats];
        [apply list_elem_of_here|done|].
      destruct (label_column_codes valores0 cats Hcats) as (cod0 & Hcod0 & _).
      rewrite Hcod0.
      destruct (IH (<[coluna := cod0]> self) Hnd) as [Hok Hlook].
      { intros c valores Hc Hcv. apply (Hsort c valores).
        - by apply list_elem_of_further.
        - rewrite lookup_insert_ne in Hcv; [done|]. by intros ->. }
      split; [done|]. intros c valores [->|Hc]%elem_of_cons Hcv.
      * assert (valores = valores0) as -> by congruence.
        exists cod0. split; [done|].
        rewrite label_encode_frame by done. apply lookup_insert_eq.
      * apply Hlook; [done|]. rewrite lookup_insert_ne; [done|]. by intros ->.
    + destruct (IH self Hnd) as [Hok Hlook].
      { intros c valores Hc Hcv. apply (Hsort c valores); [|done].
        by apply list_elem_of_further. }
      split; [done|]. intros c valores [->|Hc]%elem_of_cons Hcv; [congruence|].
      by apply Hlook.
Qed.

(** X13: when the categories of every requested column that exists can be
    sorted, [label_encode] completes, and in each such column a null stays
    null and any other cell is replaced by the position, counted from 0,
    of the category equal to it in the strictly ascending list of the
    distinct non-null values of the column; reading the codes back in
    that list recovers the column. *)
Theorem label_encode_codes (self : gmap string (list value))
    (columns : list string) (coluna : string) (valores : list value) :
  NoDup columns →
  (∀ c valores, c ∈ columns → self !! c = Some valores →
     ∃ categorias, categorias_de valores = Ok categorias) →
  coluna ∈ columns → self !! coluna = Some valores →
  ∃ self' categorias codificadas,
    label_encode self columns = (self', Ok ())
    ∧ categorias_de valores = Ok categorias
    ∧ distinct_keys categorias ∧ ascending categorias
    ∧ self' !! coluna = Some codificadas
    ∧ Forall2 (label_cell categorias) valores codificadas.
Proof.
  intros Hnd Hsort Hin Hcol.
  destruct (label_encode_lookup columns self Hnd Hsort) as [Hok Hlook].
  destruct (Hlook coluna valores Hin Hcol) as (cod & Hcod & Hfinal).
  destruct (Hsort coluna valores Hin Hcol) as [cats Hcats].
  destruct (label_column_codes valores cats Hcats) as (cod' & Hcod' & HF).
  assert (cod' = cod) as -> by congruence.
  destruct (categorias_de_sorted valores cats Hcats) as [Hd Hasc].
  exists (label_encode self columns).1, cats, cod.
  split; [|done]. rewrite <- Hok. by destruct (label_encode self columns).
Qed.

Lemma label_encode_codes_witness :
  let valores := [VStr "b"; VNone; VStr "a"; VStr "b"] in
  ∃ self' categorias codificadas,
    label_encode {["c" := valores]} ["d"; "c"] = (self', Ok ())
    ∧ categorias_de valores = Ok categorias
    ∧ distinct_keys categorias ∧ ascending categorias
    ∧ self' !! "c" = Some codificadas
    ∧ Forall2 (label_cell categorias) valores codificadas.
Proof.
  apply (label_encode_codes
           {["c" := [VStr "b"; VNone; VStr "a"; VStr "b"]]} ["d"; "c"] "c").
  - apply (bool_decide_unpack _). reflexivity.
  - intros c valores Hc Hcv.
    destruct (decide (c = "c")) as [->|Hne].
    + rewrite lookup_singleton_eq in Hcv. injection Hcv as <-.
      by exists [VStr "a"; VStr "b"].
    + by rewrite lookup_singleton_ne in Hcv.
  - apply list_elem_of_further, list_elem_of_here.
  - reflexivity.
Defined.

(** X14: whatever the request and the outcome, [label_encode] neither
    adds nor removes a column, leaves every column that was not requested
    as it was, and raises nothing but the type error of sorting
    categories that cannot be compared. *)
Theorem label_encode_preserves (self : gmap string (list value))
    (columns : list string) :
  (∀ c, (label_encode self columns).1 !! c = None ↔ self !! c = None)
  ∧ (∀ c, c ∉ columns → (label_encode self columns).1 !! c = self !! c)
  ∧ ((label_encode self columns).2 = Ok ()
     ∨ (label_encode self columns).2 = Raise TypeError).
Proof.
  split; [|split].
  - intros c. apply label_encode_keys.
  - intros c. apply label_encode_frame.
  - destruct (label_encode self columns).2 as [[]|e] eqn:Hr; [by left|].
    right. by rewrite (label_encode_raises columns self e Hr).
Qed.
End label_codes.

(** ** One-hot encoding: the indicators of a row *)

Lemma py_sum_indicators (b : value → bool) (cs : list value) (a : Z) :
  foldl (fun acc x => s <- acc;; py_add s x) (Ok (VInt a))
        ((λ c, if b c then VInt 1 else VInt 0) <$> cs)
  = Ok (VInt (a + sum_Z ((λ c, if b c then 1 else 0) <$> cs))).
Proof.
  revert a. induction cs as [|c cs IH]; intros a.
  - simpl. f_equal. f_equal. unfold sum_Z. simpl. lia.
  - rewrite !fmap_cons. cbn [foldl bind]. rewrite sum_Z_cons.
    destruct (b c); cbn [py_add py_arith int_of]; rewrite IH; do 2 f_equal; lia.
Qed.

(** Among pairwise different cells exactly one equals a cell they cover. *)
Lemma distinct_keys_one_match (cs : list value) (v : value) :
  distinct_keys cs →
  (∃ c, c ∈ cs ∧ py_eq c v = true) →
  sum_Z ((λ c, if py_eq v c then 1 else 0) <$> cs) = 1.
Proof.
  induction cs as [|c cs IH]; intros Hd (c0 & Hin & Hc0).
  - by apply not_elem_of_nil in Hin.
  - destruct Hd as [Hc Hd]. rewrite fmap_cons, sum_Z_cons.
    destruct (py_eq v c) eqn:Hvc.
    + assert (sum_Z ((λ c, if py_eq v c then 1 else 0) <$> cs) = 0) as ->; [|lia].
      clear IH Hd Hin. induction Hc as [|k l Hk _ IHl]; [done|].
      rewrite fmap_cons, sum_Z_cons, IHl.
      destruct (py_eq v k) eqn:Hvk; [|done].
      rewrite py_eq_sym in Hvc. by rewrite (py_eq_trans c v k) in Hk.
    + apply elem_of_cons in Hin as [->|Hin].
      * rewrite py_eq_sym in Hc0. congruence.
      * rewrite IH; [lia|done|by exists c0].
Qed.

Section one_hot_rows.
Import Encoder.
Variable repr_float : Q → string.

(** When the categories have pairwise different column names, each
    indicator column holds the indicator of its own category. *)
Lemma oneHot_fill_own (coluna : string) (valores categorias : list value)
    (dataset : gmap string (list value)) (categoria : value) :
  NoDup (nova_coluna repr_float coluna <$> categorias) →
  categoria ∈ categorias →
  oneHot_fill repr_float coluna valores categorias dataset
    !! nova_coluna repr_float coluna categoria
  = Some (indicador valores categoria).
Proof.
  induction categorias as [|c cs IH] using rev_ind; intros Hnd Hin.
  - by apply not_elem_of_nil in Hin.
  - rewrite oneHot_fill_snoc. rewrite fmap_app in Hnd.
    apply NoDup_app in Hnd as (Hnd & Hdisj & _).
    apply elem_of_app in Hin as [Hin|Hin%list_elem_of_singleton].
    + rewrite lookup_insert_ne; [by apply IH|].
      intros Heq. apply (Hdisj (nova_coluna repr_float coluna categoria)).
      * apply list_elem_of_fmap. by exists categoria.
      * rewrite <- Heq. apply list_elem_of_here.
    + subst c. apply lookup_insert_eq.
Qed.

(** X15: after [oneHot_encode] on one column whose categories can be
    sorted and get pairwise different column names, the indicators of
    every row whose original cell was not null sum to exactly 1. *)
Theorem oneHot_encode_rows_sum_to_one (self : gmap string (list value))
    (coluna : string) (valores categorias : list value) :
  self !! coluna = Some valores →
  categorias_de valores = Ok categorias →
  NoDup (nova_coluna repr_float coluna <$> categorias) →
  ∃ self',
    oneHot_encode repr_float self [coluna] = (self', Ok ())
    ∧ ∀ i v, valores !! i = Some v → is_none v = false →
        py_sum (row_cells self' (nova_coluna repr_float coluna <$> categorias) i)
        = Ok (VInt 1).
Proof.
  intros Hcol Hcat Hnd.
  set (cheio := oneHot_fill repr_float coluna valores categorias self).
  exists (delete coluna cheio). split.
  - simpl. unfold getitem. rewrite Hcol. simpl. rewrite Hcat. simpl.
    fold cheio. assert (cheio !! coluna = Some valores) as ->; [|done].
    unfold cheio. by rewrite oneHot_fill_original.
  - intros i v Hi Hnn.
    assert (Hrow : row_cells (delete coluna cheio)
                     (nova_coluna repr_float coluna <$> categorias) i
                   = (λ c, if py_eq v c then VInt 1 else VInt 0) <$> categorias).
    { unfold row_cells.
      assert (Hall : ∀ c, c ∈ categorias →
                delete coluna cheio !! nova_coluna repr_float coluna c
                  ≫= (.!! i)
                = Some (if py_eq v c then VInt 1 else VInt 0)).
      { intros c Hc. rewrite lookup_delete_ne
          by (intros Heq; symmetry in Heq; by apply nova_coluna_fresh in Heq).
        unfold cheio. rewrite oneHot_fill_own by done. simpl.
        unfold indicador. by rewrite list_lookup_fmap, Hi. }
      set (d' := delete coluna cheio) in *. clearbody d'.
      clear -Hall. induction categorias as [|c cs IH]; [done|].
      rewrite !fmap_cons. cbn [omap list_omap].
      rewrite (Hall c) by apply list_elem_of_here.
      f_equal. apply IH. intros c' Hc'. apply Hall. by apply list_elem_of_further. }
    rewrite Hrow. unfold py_sum. rewrite py_sum_indicators. do 2 f_equal.
    rewrite distinct_keys_one_match; [done| |].
    + by eapply categorias_de_sorted.
    + destruct (py_set_spec (filter (fun v => negb (is_none v)) valores))
        as [_ Hcover].
      destruct (Hcover v) as (y & Hy & Hyv).
      { apply list_elem_of_filter. split; [by rewrite Hnn|].
        by eapply list_elem_of_lookup_2. }
      exists y. split; [|done]. by rewrite (py_sorted_Ok _ _ Hcat).
Qed.

(** X16: [oneHot_encode] on one column changes the dataset all at once or
    not at all.  On a name that is not a column it raises a lookup error,
    and on a column whose categories cannot be sorted a type error, each
    time leaving the dataset untouched; otherwise it completes, and only
    the encoded column and the indicator columns differ from before. *)
Theorem oneHot_encode_outcome (self : gmap string (list value))
    (coluna : string) :
  match self !! coluna with
  | None => oneHot_encode repr_float self [coluna] = (self, Raise KeyError)
  | Some valores =>
      match categorias_de valores with
      | Raise _ =>
          oneHot_encode repr_float self [coluna] = (self, Raise TypeError)
      | Ok categorias =>
          ∃ self',
            oneHot_encode repr_float self [coluna] = (self', Ok ())
            ∧ self' !! coluna = None
            ∧ ∀ c, c ≠ coluna →
                c ∉ nova_coluna repr_float coluna <$> categorias →
                self' !! c = self !! c
      end
  end.
Proof.
  destruct (self !! coluna) as [valores|] eqn:Hcol.
  - destruct (categorias_de valores) as [categorias|e] eqn:Hcat.
    + exists (delete coluna (oneHot_fill repr_float coluna valores categorias self)).
      split; [|split].
      * simpl. unfold getitem. rewrite Hcol. simpl. rewrite Hcat. simpl.
        by rewrite oneHot_fill_original, Hcol.
      * apply lookup_delete_eq.
      * intros c Hne Hfresh. rewrite lookup_delete_ne by done.
        clear Hcat. induction categorias as [|k ks IH] using rev_ind; [done|].
        rewrite oneHot_fill_snoc. rewrite fmap_app in Hfresh.
        apply not_elem_of_app in Hfresh as [Hks Hk].
        rewrite lookup_insert_ne; [by apply IH|].
        intros Heq. apply Hk. rewrite <- Heq. apply list_elem_of_here.
    + simpl. unfold getitem. rewrite Hcol. simpl. rewrite Hcat. simpl.
      by rewrite (py_sorted_raises _ _ Hcat).
  - simpl. unfold getitem. by rewrite Hcol.
Qed.
End one_hot_rows.

Lemma oneHot_encode_rows_sum_to_one_witness :
  let repr_float : Q → string := fun _ => "0.5" in
  let valores := [VStr "b"; VNone; VStr "a"; VStr "b"] in
  let categorias := [VStr "a"; VStr "b"] in
  ∃ self',
    Encoder.oneHot_encode repr_float {["c" := valores]} ["c"] = (self', Ok ())
    ∧ ∀ i v, valores !! i = Some v → is_none v = false →
        py_sum (row_cells self'
                  (Encoder.nova_coluna repr_float "c" <$> categorias) i)
        = Ok (VInt 1).
Proof.
  apply (oneHot_encode_rows_sum_to_one (fun _ => "0.5")
           {["c" := [VStr "b"; VNone; VStr "a"; VStr "b"]]} "c"
           [VStr "b"; VNone; VStr "a"; VStr "b"] [VStr "a"; VStr "b"]).
  - reflexivity.
  - reflexivity.
  - apply (bool_decide_unpack _). reflexivity.
Defined.

(** ** Min-max scaling: what it keeps, and scaling twice *)

Section minMax_more.
Import Scaler.








End minMax_more.

(** ** Selecting rows by nulls *)

Section select_rows_facts.
Import MissingValueProcessor.

Lemma cell_in_range (dataset : gmap string (list value)) (c : string)
    (col : list value) (i : nat) :
  dataset !! c = Some col → (i < length col)%nat →
  ∃ v, col !! i = Some v ∧ cell dataset c i = Return v.
Proof.
  intros Hc Hi. destruct (lookup_lt_is_Some_2 col i Hi) as [v Hv].
  exists v. split; [done|]. unfold cell, getitem, py_index.
  rewrite Hc. cbn [lift obind]. by rewrite Hv.
Qed.

Lemma any_none_has_null (dataset : gmap string (list value))
    (colunas : list string) (n i : nat) :
  rectangular dataset n → (i < n)%nat →
  (∀ c, c ∈ colunas → is_Some (dataset !! c)) →
  any_none dataset colunas i = Return (has_null dataset colunas i)
  ∧ all_not_none dataset colunas i = Return (negb (has_null dataset colunas i)).
Proof.
  intros Hrect Hi. induction colunas as [|c cs IH]; intros Hall; [done|].
  destruct (Hall c) as [col Hc]; [apply list_elem_of_here|].
  destruct (cell_in_range dataset c col i Hc) as (v & Hv & Hcell).
  { by rewrite (Hrect c col Hc). }
  destruct IH as [IH1 IH2].
  { intros c' Hc'. apply Hall. by apply list_elem_of_further. }
  cbn [any_none all_not_none has_null existsb]. rewrite Hcell, Hc. cbn [obind mbind option_bind].
  rewrite Hv. destruct (is_none v); cbn [negb orb]; [done|].
  by rewrite IH1, IH2.
Qed.

Lemma rows_at_snoc (col : list value) (linhas : list nat) (i : nat) (v : value) :
  col !! i = Some v → rows_at col (linhas ++ [i]) = rows_at col linhas ++ [v].
Proof. intros Hv. unfold rows_at. rewrite omap_app. simpl. by rewrite Hv. Qed.

(** Appending row [i] to the columns [chaves] of the new dictionary. *)
Lemma append_row_spec (dataset : gmap string (list value))
    (chaves : list string) (n i : nat) (linhas : list nat)
    (novo : gmap string (list value)) :
  rectangular dataset n → (i < n)%nat → NoDup chaves →
  (∀ c, c ∈ chaves →
        ∃ col, dataset !! c = Some col ∧ novo !! c = Some (rows_at col linhas)) →
  ∃ novo',
    append_row dataset chaves i novo = Return novo'
    ∧ (∀ c, c ∉ chaves → novo' !! c = novo !! c)
    ∧ (∀ c, c ∈ chaves →
            ∃ col, dataset !! c = Some col
                   ∧ novo' !! c = Some (rows_at col (linhas ++ [i]))).
Proof.
  intros Hrect Hi. revert novo.
  induction chaves as [|c cs IH]; intros novo Hnd Hall.
  - exists novo. split; [done|]. split; [done|]. by intros c ?%not_elem_of_nil.
  - apply NoDup_cons in Hnd as [Hnotin Hnd].
    destruct (Hall c) as (col & Hc & Hnc); [apply list_elem_of_here|].
    destruct (cell_in_range dataset c col i Hc) as (v & Hv & Hcell).
    { by rewrite (Hrect c col Hc). }
    cbn [append_row]. unfold getitem. rewrite Hnc. cbn [lift obind].
    rewrite Hcell. cbn [obind].
    destruct (IH (<[c := rows_at col linhas ++ [v]]> novo) Hnd)
      as (novo' & Hrun & Hout & Hin).
    { intros c' Hc'. destruct (Hall c') as (col' & Hc'd & Hc'n);
        [by apply list_elem_of_further|].
      exists col'. split; [done|]. rewrite lookup_insert_ne; [done|].
      by intros ->. }
    exists novo'. split; [done|]. split.
    + intros c' [Hne Hc']%not_elem_of_cons. rewrite Hout by done.
      by rewrite lookup_insert_ne.
    + intros c' [->|Hc']%elem_of_cons; [|by apply Hin].
      exists col. split; [done|]. rewrite Hout by done.
      rewrite lookup_insert_eq. by rewrite (rows_at_snoc col linhas i v).
Qed.

(** The loop over the rows keeps, in every column, the cells of the rows
    the test selects. *)
Lemma select_rows_spec (t : nat → bool) (seleciona : nat → outcome bool)
    (dataset : gmap string (list value)) (chaves : list string) (n : nat)
    (linhas feitas : list nat) (novo : gmap string (list value)) :
  rectangular dataset n → NoDup chaves →
  (∀ i, i ∈ linhas → (i < n)%nat ∧ seleciona i = Return (t i)) →
  (∀ c, c ∈ chaves →
        ∃ col, dataset !! c = Some col ∧ novo !! c = Some (rows_at col feitas)) →
  ∃ novo',
    select_rows seleciona dataset chaves linhas novo = Return novo'
    ∧ (∀ c, c ∉ chaves → novo' !! c = novo !! c)
    ∧ (∀ c, c ∈ chaves →
            ∃ col, dataset !! c = Some col
                   ∧ novo' !! c
                     = Some (rows_at col (feitas ++ filter (λ i, t i = true) linhas))).
Proof.
  intros Hrect Hnd. revert feitas novo.
  induction linhas as [|i linhas IH]; intros feitas novo Hsel Hall.
  - exists novo. split; [done|]. split; [done|].
    intros c Hc. rewrite filter_nil, app_nil_r. by apply Hall.
  - destruct (Hsel i) as [Hi Ht]; [apply list_elem_of_here|].
    assert (Hsel' : ∀ j, j ∈ linhas → (j < n)%nat ∧ seleciona j = Return (t j)).
    { intros j Hj. apply Hsel. by apply list_elem_of_further. }
    cbn [select_rows]. rewrite Ht. cbn [obind].
    destruct (t i) eqn:Hti.
    + destruct (append_row_spec dataset chaves n i feitas novo Hrect Hi Hnd Hall)
        as (novo1 & -> & Hout1 & Hin1).
      cbn [obind].
      destruct (IH (feitas ++ [i]) novo1 Hsel' Hin1) as (novo' & Hrun & Hout & Hin).
      exists novo'. split; [done|]. split.
      * intros c Hc. by rewrite Hout, Hout1.
      * intros c Hc. destruct (Hin c Hc) as (col & Hcd & Hcn).
        exists col. split; [done|]. rewrite Hcn.
        rewrite filter_cons_True by done. by rewrite <- app_assoc.
    + destruct (IH feitas novo Hsel' Hall) as (novo' & Hrun & Hout & Hin).
      exists novo'. split; [done|]. split; [done|].
      intros c Hc. destruct (Hin c Hc) as (col & Hcd & Hcn).
      exists col. split; [done|]. rewrite Hcn.
      rewrite filter_cons_False; [done|]. by rewrite Hti.
Qed.

Lemma novo_vazio_lookup (chaves : list string) (c : string) :
  novo_vazio chaves !! c = if decide (c ∈ chaves) then Some [] else None.
Proof.
  unfold novo_vazio. induction chaves as [|c0 cs IH].
  - by rewrite decide_False by apply not_elem_of_nil.
  - rewrite fmap_cons, list_to_map_cons.
    destruct (decide (c0 = c)) as [->|Hne].
    + rewrite lookup_insert_eq. by rewrite decide_True by apply list_elem_of_here.
    + rewrite lookup_insert_ne, IH by done.
      destruct (decide (c ∈ cs)) as [Hc|Hc].
      * by rewrite decide_True by (by apply list_elem_of_further).
      * rewrite decide_False; [done|]. intros [->|?]%elem_of_cons; done.
Qed.

Lemma rows_at_from (pre col : list value) :
  rows_at (pre ++ col) (seq (length pre) (length col)) = col.
Proof.
  revert pre. induction col as [|v col IH]; intros pre; [done|].
  cbn [length seq]. unfold rows_at. cbn [omap list_omap].
  rewrite list_lookup_middle by done. f_equal.
  specialize (IH (pre ++ [v])).
  rewrite length_app, Nat.add_1_r, <- app_assoc in IH. exact IH.
Qed.

(** The rows of a column at all its indices are the column. *)
Lemma rows_at_all (col : list value) : rows_at col (seq 0 (length col)) = col.
Proof. exact (rows_at_from [] col). Qed.

Lemma has_null_cell (dataset : gmap string (list value))
    (colunas : list string) (i : nat) (c : string) (col : list value) :
  has_null dataset colunas i = false →
  c ∈ colunas → dataset !! c = Some col → col !! i ≠ Some VNone.
Proof.
  intros Hnull Hc Hcol Hi. unfold has_null in Hnull.
  assert (existsb (λ c, match dataset !! c ≫= (.!! i) with
                        | Some v => is_none v
                        | None => false
                        end) colunas = true) as Hex; [|congruence].
  apply existsb_exists. exists c. split; [by apply list_elem_of_In|].
  rewrite Hcol. simpl. by rewrite Hi.
Qed.
End select_rows_facts.

Lemma filter_all {A : Type} (P : A → Prop) `{∀ x, Decision (P x)} (l : list A) :
  Forall P l → filter P l = l.
Proof.
  induction 1 as [|x l Hx _ IH]; [done|]. by rewrite filter_cons_True, IH.
Qed.

Lemma filter_none {A : Type} (P : A → Prop) `{∀ x, Decision (P x)} (l : list A) :
  Forall (λ x, ¬ P x) l → filter P l = [].
Proof.
  induction 1 as [|x l Hx _ IH]; [done|]. by rewrite filter_cons_False.
Qed.

(** A small dataset with nulls, used to instantiate the theorems below. *)
Lemma example_keys :
  keys_of {["a" := [VInt 1; VNone; VInt 3]; "b" := [VStr "x"; VStr "y"; VNone]]}
          ["a"; "b"].
Proof.
  split; [apply (bool_decide_unpack _); reflexivity|]. intros k.
  rewrite !elem_of_cons, elem_of_nil. split.
  - intros [->|[->|[]]]; by eexists.
  - intros [col Hcol]. destruct (decide (k = "a")) as [->|Ha]; [by left|].
    destruct (decide (k = "b")) as [->|Hb]; [by right; left|].
    rewrite lookup_insert_ne, lookup_singleton_ne in Hcol by done. done.
Defined.

Lemma example_rectangular :
  rectangular
    {["a" := [VInt 1; VNone; VInt 3]; "b" := [VStr "x"; VStr "y"; VNone]]} 3.
Proof.
  intros k col Hcol. destruct (decide (k = "a")) as [->|Ha].
  { rewrite lookup_insert_eq in Hcol. by injection Hcol as <-. }
  rewrite lookup_insert_ne in Hcol by done.
  destruct (decide (k = "b")) as [->|Hb].
  { rewrite lookup_singleton_eq in Hcol. by injection Hcol as <-. }
  by rewrite lookup_singleton_ne in Hcol.
Defined.

Section isna_notna.
Import MissingValueProcessor.

Lemma numero_linhas_rectangular (dataset : gmap string (list value))
    (chaves : list string) (n : nat) :
  keys_of dataset chaves → chaves ≠ [] → rectangular dataset n →
  numero_linhas dataset chaves = Return n.
Proof.
  intros [_ Hkeys] Hne Hrect. destruct chaves as [|primeira resto]; [done|].
  destruct (proj1 (Hkeys primeira)) as [col Hcol]; [apply list_elem_of_here|].
  unfold numero_linhas, getitem. rewrite Hcol. cbn [lift obind].
  by rewrite (Hrect _ _ Hcol).
Qed.

(** Selecting among all the rows, starting from empty columns. *)
Lemma select_all_rows (t : nat → bool) (seleciona : nat → outcome bool)
    (dataset : gmap string (list value)) (chaves : list string) (n : nat) :
  keys_of dataset chaves → rectangular dataset n →
  (∀ i, (i < n)%nat → seleciona i = Return (t i)) →
  ∃ novo,
    select_rows seleciona dataset chaves (seq 0 n) (novo_vazio chaves)
    = Return novo
    ∧ ∀ c, novo !! c
           = (λ col, rows_at col (filter (λ i, t i = true) (seq 0 n)))
               <$> dataset !! c.
Proof.
  intros [Hnd Hkeys] Hrect Hsel.
  destruct (select_rows_spec t seleciona dataset chaves n (seq 0 n) []
              (novo_vazio chaves) Hrect Hnd) as (novo & Hrun & Hout & Hin).
  { intros i Hi%elem_of_seq. split; [lia|]. apply Hsel. lia. }
  { intros c Hc. destruct (proj1 (Hkeys c) Hc) as [col Hcol].
    exists col. split; [done|]. rewrite novo_vazio_lookup.
    by rewrite decide_True. }
  exists novo. split; [done|]. intros c.
  destruct (decide (c ∈ chaves)) as [Hc|Hc].
  - destruct (Hin c Hc) as (col & Hcol & ->). by rewrite Hcol.
  - rewrite Hout, novo_vazio_lookup, decide_False by done.
    destruct (dataset !! c) eqn:Hcol; [|done].
    exfalso. apply Hc, Hkeys. eauto.
Qed.

Lemma target_columns_present (dataset : gmap string (list value))
    (chaves columns : list string) :
  keys_of dataset chaves →
  (∀ c, c ∈ columns → is_Some (dataset !! c)) →
  ∀ c, c ∈ _get_target_columns chaves columns → is_Some (dataset !! c).
Proof.
  intros [_ Hkeys] Hall c. unfold _get_target_columns.
  case_bool_decide; [apply Hkeys|apply Hall].
Qed.

Lemma notna_rows (dataset : gmap string (list value))
    (chaves columns : list string) (n : nat) :
  keys_of dataset chaves → chaves ≠ [] → rectangular dataset n →
  (∀ c, c ∈ columns → is_Some (dataset !! c)) →
  ∃ novo,
    notna dataset chaves columns = Return novo
    ∧ ∀ c, novo !! c
           = (λ col, rows_at col
                       (complete_rows dataset
                          (_get_target_columns chaves columns) n))
               <$> dataset !! c.
Proof.
  intros Hkeys Hne Hrect Hcols. unfold notna.
  rewrite (numero_linhas_rectangular _ _ n) by done. cbn [obind].
  destruct (select_all_rows
              (λ i, negb (has_null dataset (_get_target_columns chaves columns) i))
              (all_not_none dataset (_get_target_columns chaves columns))
              dataset chaves n Hkeys Hrect) as (novo & Hrun & Hlook).
  { intros i Hi. by apply (any_none_has_null dataset _ n i);
      [| |apply target_columns_present]. }
  exists novo. split; [done|]. intros c. rewrite Hlook. unfold complete_rows.
  destruct (dataset !! c); [|done]. simpl. do 2 f_equal.
  apply list_filter_iff. intros i. by rewrite negb_true_iff.
Qed.

Lemma isna_rows (dataset : gmap string (list value))
    (chaves columns : list string) (n : nat) :
  keys_of dataset chaves → chaves ≠ [] → rectangular dataset n →
  (∀ c, c ∈ columns → is_Some (dataset !! c)) →
  ∃ novo,
    isna dataset chaves columns = Return novo
    ∧ ∀ c, novo !! c
           = (λ col, rows_at col
                       (null_rows dataset
                          (_get_target_columns chaves columns) n))
               <$> dataset !! c.
Proof.
  intros Hkeys Hne Hrect Hcols. unfold isna.
  rewrite (numero_linhas_rectangular _ _ n) by done. cbn [obind].
  destruct (select_all_rows
              (has_null dataset (_get_target_columns chaves columns))
              (any_none dataset (_get_target_columns chaves columns))
              dataset chaves n Hkeys Hrect) as (novo & Hrun & Hlook).
  { intros i Hi. by apply (any_none_has_null dataset _ n i);
      [| |apply target_columns_present]. }
  exists novo. split; [done|]. intros c. by rewrite Hlook.
Qed.

Lemma rows_at_length (col : list value) (linhas : list nat) :
  Forall (λ i, (i < length col)%nat) linhas →
  length (rows_at col linhas) = length linhas.
Proof.
  unfold rows_at. induction 1 as [|i l Hi _ IH]; [done|].
  cbn [omap list_omap]. destruct (lookup_lt_is_Some_2 col i Hi) as [v ->].
  cbn [length]. by rewrite IH.
Qed.

Lemma complete_rows_lt (dataset : gmap string (list value))
    (colunas : list string) (n : nat) :
  Forall (λ i, (i < n)%nat) (complete_rows dataset colunas n).
Proof.
  apply Forall_forall. intros i [_ Hi%elem_of_seq]%list_elem_of_filter. lia.
Qed.

Lemma notna_facts (dataset : gmap string (list value))
    (chaves columns : list string) (n : nat) :
  keys_of dataset chaves → chaves ≠ [] → rectangular dataset n →
  (∀ c, c ∈ columns → is_Some (dataset !! c)) →
  let colunas := _get_target_columns chaves columns in
  let completas := complete_rows dataset colunas n in
  ∃ novo,
    notna dataset chaves columns = Return novo
    ∧ (∀ c, novo !! c = (λ col, rows_at col completas) <$> dataset !! c)
    ∧ keys_of novo chaves
    ∧ rectangular novo (length completas)
    ∧ (∀ c col, c ∈ colunas → novo !! c = Some col → VNone ∉ col).
Proof.
  intros Hkeys Hne Hrect Hcols colunas completas.
  destruct (notna_rows dataset chaves columns n Hkeys Hne Hrect Hcols)
    as (novo & Hrun & Hlook).
  fold colunas in Hlook. fold completas in Hlook.
  exists novo. split; [done|]. split; [done|]. split; [|split].
  - destruct Hkeys as [Hnd Hk]. split; [done|]. intros k.
    rewrite Hk, Hlook. by rewrite fmap_is_Some.
  - intros c col'. rewrite Hlook.
    destruct (dataset !! c) as [col|] eqn:Hc; [|done]. intros [= <-].
    apply rows_at_length. rewrite (Hrect c col Hc). apply complete_rows_lt.
  - intros c col' Hc. rewrite Hlook.
    destruct (dataset !! c) as [col|] eqn:Hcol; [|done]. intros [= <-].
    intros (i & Hi & Hv)%list_elem_of_omap.
    apply list_elem_of_filter in Hi as [Hnull _].
    by apply (has_null_cell dataset colunas i c col).
Qed.

(** X19: on a dataset with at least one column and columns of one length,
    [notna] over requested columns that exist (or over all columns)
    returns a new dataset with the same columns, in which every column
    keeps, in order, its cells at the rows that have no null in the
    checked columns; the result has columns of one length and no null in
    any checked column. *)
Theorem notna_spec (dataset : gmap string (list value))
    (chaves columns : list string) (n : nat) :
  keys_of dataset chaves → chaves ≠ [] → rectangular dataset n →
  (∀ c, c ∈ columns → is_Some (dataset !! c)) →
  let colunas := _get_target_columns chaves columns in
  let completas := complete_rows dataset colunas n in
  ∃ novo,
    notna dataset chaves columns = Return novo
    ∧ (∀ c, novo !! c = (λ col, rows_at col completas) <$> dataset !! c)
    ∧ rectangular novo (length completas)
    ∧ (∀ c col, c ∈ colunas → novo !! c = Some col → VNone ∉ col).
Proof.
  intros Hkeys Hne Hrect Hcols colunas completas.
  destruct (notna_facts dataset chaves columns n Hkeys Hne Hrect Hcols)
    as (novo & Hrun & Hlook & _ & Hr & Hnn).
  by exists novo.
Qed.

(** X20: on a dataset with at least one column and columns of one
    length, over requested columns that exist (or over all columns),
    [isna] and [notna] split the rows:
    each column of the dataset is, up to the order of its cells, the
    column [isna] returns (the rows with a null in a checked column)
    followed by the column [notna] returns (the other rows). *)
Theorem isna_notna_partition (dataset : gmap string (list value))
    (chaves columns : list string) (n : nat) :
  keys_of dataset chaves → chaves ≠ [] → rectangular dataset n →
  (∀ c, c ∈ columns → is_Some (dataset !! c)) →
  let colunas := _get_target_columns chaves columns in
  ∃ com sem,
    isna dataset chaves columns = Return com
    ∧ notna dataset chaves columns = Return sem
    ∧ ∀ c col, dataset !! c = Some col →
        com !! c = Some (rows_at col (null_rows dataset colunas n))
        ∧ sem !! c = Some (rows_at col (complete_rows dataset colunas n))
        ∧ rows_at col (null_rows dataset colunas n)
          ++ rows_at col (complete_rows dataset colunas n) ≡ₚ col.
Proof.
  intros Hkeys Hne Hrect Hcols colunas.
  destruct (isna_rows dataset chaves columns n Hkeys Hne Hrect Hcols)
    as (com & Hcom & Hlc).
  destruct (notna_rows dataset chaves columns n Hkeys Hne Hrect Hcols)
    as (sem & Hsem & Hls).
  exists com, sem. split; [done|]. split; [done|]. intros c col Hc.
  rewrite Hlc, Hls, Hc. split; [done|]. split; [done|].
  transitivity (rows_at col (seq 0 n));
    [|by rewrite <- (Hrect c col Hc), rows_at_all].
  unfold rows_at. rewrite <- omap_app. apply omap_Permutation.
  unfold null_rows, complete_rows.
  rewrite <- (filter_app_complement (λ i, has_null dataset colunas i = true)
                (seq 0 n)) at 3.
  f_equiv.
  assert (filter (λ i, has_null dataset colunas i = false) (seq 0 n)
          = filter (λ i, has_null dataset colunas i ≠ true) (seq 0 n)) as ->;
    [|done].
  apply list_filter_iff. intros i. by destruct (has_null dataset colunas i).
Qed.

(** X21: on a dataset with at least one column and columns of one
    length, over requested columns that exist (or over all columns),
    [dropna] binds the processor to the
    dataset [notna] returns, and dropping again changes nothing: on the
    new dataset [notna] returns that dataset and [isna] returns columns
    without rows. *)
Theorem dropna_idempotent (dataset : gmap string (list value))
    (chaves columns : list string) (n : nat) :
  keys_of dataset chaves → chaves ≠ [] → rectangular dataset n →
  (∀ c, c ∈ columns → is_Some (dataset !! c)) →
  ∃ novo,
    dropna dataset chaves columns = (novo, Return ())
    ∧ notna dataset chaves columns = Return novo
    ∧ dropna novo chaves columns = (novo, Return ())
    ∧ isna novo chaves columns = Return ((λ _, []) <$> novo).
Proof.
  intros Hkeys Hne Hrect Hcols.
  destruct (notna_facts dataset chaves columns n Hkeys Hne Hrect Hcols)
    as (novo & Hrun & Hlook & Hkeys' & Hrect' & Hnn).
  set (colunas := _get_target_columns chaves columns) in *.
  set (m := length (complete_rows dataset colunas n)) in *.
  assert (Hcols' : ∀ c, c ∈ columns → is_Some (novo !! c)).
  { intros c Hc. rewrite Hlook. apply fmap_is_Some. by apply Hcols. }
  assert (Hnull : ∀ i, has_null novo colunas i = false).
  { intros i. destruct (has_null novo colunas i) eqn:Hh; [|done].
    apply existsb_exists in Hh as (c & Hc%list_elem_of_In & Hv).
    destruct (novo !! c) as [col|] eqn:Hcol; [|done]. simpl in Hv.
    destruct (col !! i) as [v|] eqn:Hi; [|done]. destruct v; try done.
    exfalso. apply (Hnn c col Hc Hcol). by eapply list_elem_of_lookup_2. }
  assert (Hall : complete_rows novo colunas m = seq 0 m).
  { unfold complete_rows. apply filter_all. by apply Forall_forall. }
  assert (Hnone : null_rows novo colunas m = []).
  { unfold null_rows. apply filter_none. apply Forall_forall.
    intros i _. by rewrite Hnull. }
  destruct (notna_rows novo chaves columns m Hkeys' Hne Hrect' Hcols')
    as (novo2 & Hrun2 & Hlook2).
  destruct (isna_rows novo chaves columns m Hkeys' Hne Hrect' Hcols')
    as (vazio & Hrun3 & Hlook3).
  fold colunas in Hlook2, Hlook3. rewrite Hall in Hlook2. rewrite Hnone in Hlook3.
  assert (novo2 = novo) as ->.
  { apply map_eq. intros c. rewrite Hlook2.
    destruct (novo !! c) as [col|] eqn:Hc; [|done]. simpl.
    by rewrite <- (Hrect' c col Hc), rows_at_all. }
  exists novo. unfold dropna. rewrite Hrun, Hrun2.
  split; [done|]. split; [done|]. split; [done|].
  rewrite Hrun3. f_equal. apply map_eq. intros c.
  rewrite Hlook3, lookup_fmap. by destruct (novo !! c).
Qed.

Lemma dropna_idempotent_witness :
  let dataset : gmap string (list value) :=
    {["a" := [VInt 1; VNone; VInt 3]; "b" := [VStr "x"; VStr "y"; VNone]]} in
  ∃ novo,
    dropna dataset ["a"; "b"] ["a"] = (novo, Return ())
    ∧ notna dataset ["a"; "b"] ["a"] = Return novo
    ∧ dropna novo ["a"; "b"] ["a"] = (novo, Return ())
    ∧ isna novo ["a"; "b"] ["a"] = Return ((λ _, []) <$> novo).
Proof.
  apply (dropna_idempotent
           {["a" := [VInt 1; VNone; VInt 3]; "b" := [VStr "x"; VStr "y"; VNone]]}
           ["a"; "b"] ["a"] 3).
  - apply example_keys.
  - discriminate.
  - apply example_rectangular.
  - intros c ->%list_elem_of_singleton. by eexists.
Defined.

Lemma notna_spec_witness :
  let dataset : gmap string (list value) :=
    {["a" := [VInt 1; VNone; VInt 3]; "b" := [VStr "x"; VStr "y"; VNone]]} in
  let colunas := _get_target_columns ["a"; "b"] ["a"] in
  let completas := complete_rows dataset colunas 3 in
  ∃ novo,
    notna dataset ["a"; "b"] ["a"] = Return novo
    ∧ (∀ c, novo !! c = (λ col, rows_at col completas) <$> dataset !! c)
    ∧ rectangular novo (length completas)
    ∧ (∀ c col, c ∈ colunas → novo !! c = Some col → VNone ∉ col).
Proof.
  apply (notna_spec
           {["a" := [VInt 1; VNone; VInt 3]; "b" := [VStr "x"; VStr "y"; VNone]]}
           ["a"; "b"] ["a"] 3).
  - apply example_keys.
  - discriminate.
  - apply example_rectangular.
  - intros c ->%list_elem_of_singleton. by eexists.
Defined.

Lemma isna_notna_partition_witness :
  let dataset : gmap string (list value) :=
    {["a" := [VInt 1; VNone; VInt 3]; "b" := [VStr "x"; VStr "y"; VNone]]} in
  let colunas := _get_target_columns ["a"; "b"] [] in
  ∃ com sem,
    isna dataset ["a"; "b"] [] = Return com
    ∧ notna dataset ["a"; "b"] [] = Return sem
    ∧ ∀ c col, dataset !! c = Some col →
        com !! c = Some (rows_at col (null_rows dataset colunas 3))
        ∧ sem !! c = Some (rows_at col (complete_rows dataset colunas 3))
        ∧ rows_at col (null_rows dataset colunas 3)
          ++ rows_at col (complete_rows dataset colunas 3) ≡ₚ col.
Proof.
  apply (isna_notna_partition
           {["a" := [VInt 1; VNone; VInt 3]; "b" := [VStr "x"; VStr "y"; VNone]]}
           ["a"; "b"] [] 3).
  - apply example_keys.
  - discriminate.
  - apply example_rectangular.
  - by intros c ?%not_elem_of_nil.
Defined.
End isna_notna.

(** ** Filling nulls *)

Section fillna_facts.
Import Statistics MissingValueProcessor.

Lemma init_lists (dataset : gmap string (list value)) :
  __init__ (RDict (RList <$> dataset)) = Raise ValueError
  ∨ (__init__ (RDict (RList <$> dataset)) = Ok dataset ∧ dataset ≠ ∅).
Proof.
  unfold __init__.
  destruct (mapM as_list (map_to_list (RList <$> dataset)).*2) as [colunas|] eqn:Hm.
  - case_bool_decide as Hempty; [by left|].
    case_bool_decide; [by left|]. right. split.
    + f_equal. apply map_eq. intros k. rewrite lookup_omap_as_list, lookup_fmap.
      by destruct (dataset !! k).
    + intros ->. by rewrite fmap_empty in Hempty.
  - apply mapM_as_list_None in Hm as [k Hk]. rewrite lookup_fmap in Hk.
    by destruct (dataset !! k).
Qed.

Lemma init_rectangular (dataset : gmap string (list value)) (n : nat) :
  dataset ≠ ∅ → rectangular dataset n →
  __init__ (RDict (RList <$> dataset)) = Ok dataset.
Proof.
  intros Hne Hrect. destruct (init_lists dataset) as [Hraise|[Hok _]]; [|done].
  exfalso. unfold __init__ in Hraise.
  destruct (mapM as_list (map_to_list (RList <$> dataset)).*2) as [colunas|] eqn:Hm.
  - assert (Hne' : RList <$> dataset ≠ ∅).
    { intros H%fmap_empty_iff. done. }
    rewrite bool_decide_false in Hraise by done.
    case_bool_decide as Hsize; [|done].
    apply (lengths_size _ _ Hm Hne') in Hsize
      as (k1 & k2 & xs & ys & H1 & H2 & Hlen).
    rewrite lookup_fmap in H1, H2.
    destruct (dataset !! k1) as [c1|] eqn:Hc1; [|done].
    destruct (dataset !! k2) as [c2|] eqn:Hc2; [|done].
    simpl in H1, H2. injection H1 as <-. injection H2 as <-.
    by rewrite (Hrect _ _ Hc1), (Hrect _ _ Hc2) in Hlen.
  - done.
Qed.

Lemma keys_of_nonempty (dataset : gmap string (list value))
    (chaves : list string) :
  keys_of dataset chaves → chaves ≠ [] → dataset ≠ ∅.
Proof.
  intros [_ Hkeys] Hne ->. destruct chaves as [|k ks]; [done|].
  destruct (proj1 (Hkeys k)) as [? Hk]; [apply list_elem_of_here|].
  by rewrite lookup_empty in Hk.
Qed.

Lemma keys_of_empty (dataset : gmap string (list value)) :
  keys_of dataset [] → dataset = ∅.
Proof.
  intros [_ Hkeys]. apply map_empty. intros k.
  destruct (dataset !! k) eqn:Hk; [|done].
  assert (k ∈ @nil string) as Hin by (apply Hkeys; eauto).
  by apply not_elem_of_nil in Hin.
Qed.

(** The loop of [fillna] when the fill value of each column is known. *)
Lemma fillna_loop_spec (method : string) (default_value : value)
    (val : string → value) (colunas : list string)
    (dataset : gmap string (list value)) :
  NoDup colunas →
  (∀ c, c ∈ colunas → is_Some (dataset !! c)) →
  (∀ c d', c ∈ colunas → d' !! c = dataset !! c →
     valor_preenchimento d' method default_value c = Return (val c)) →
  ∃ novo,
    fillna_loop colunas method default_value dataset = (novo, Return ())
    ∧ ∀ c, novo !! c
           = if decide (c ∈ colunas) then
               (λ col, if is_none (val c) then col else preencher (val c) col)
                 <$> dataset !! c
             else dataset !! c.
Proof.
  revert dataset. induction colunas as [|c cs IH]; intros dataset Hnd Hall Hval.
  - exists dataset. split; [done|]. intros c.
    by rewrite decide_False by apply not_elem_of_nil.
  - apply NoDup_cons in Hnd as [Hnotin Hnd].
    destruct (Hall c) as [col Hcol]; [apply list_elem_of_here|].
    cbn [fillna_loop]. rewrite (Hval c dataset) by (done || apply list_elem_of_here).
    set (d1 := if is_none (val c) then dataset
               else <[c := preencher (val c) col]> dataset).
    assert (Hd1 : ∀ k, k ≠ c → d1 !! k = dataset !! k).
    { intros k Hk. unfold d1. destruct (is_none (val c)); [done|].
      by rewrite lookup_insert_ne. }
    assert (Hd1c : d1 !! c = Some (if is_none (val c) then col
                                   else preencher (val c) col)).
    { unfold d1. destruct (is_none (val c)); [done|]. apply lookup_insert_eq. }
    destruct (IH d1 Hnd) as (novo & Hrun & Hlook).
    { intros k Hk. rewrite Hd1 by (by intros ->). apply Hall.
      by apply list_elem_of_further. }
    { intros k d' Hk Hd'. apply Hval; [by apply list_elem_of_further|].
      rewrite Hd'. apply Hd1. by intros ->. }
    exists novo. split.
    + unfold d1 in Hrun. unfold getitem. rewrite Hcol. cbn [lift].
      by destruct (is_none (val c)).
    + intros k. rewrite Hlook. destruct (decide (k = c)) as [->|Hne].
      * rewrite decide_False by done.
        rewrite decide_True by apply list_elem_of_here. by rewrite Hd1c, Hcol.
      * rewrite Hd1 by done. destruct (decide (k ∈ cs)) as [Hk|Hk].
        -- by rewrite decide_True by (by apply list_elem_of_further).
        -- rewrite decide_False; [done|]. by intros [?|?]%elem_of_cons.
Qed.

Lemma target_columns_NoDup (dataset : gmap string (list value))
    (chaves columns : list string) :
  keys_of dataset chaves → NoDup columns →
  NoDup (_get_target_columns chaves columns).
Proof.
  intros [Hnd _] Hc. unfold _get_target_columns. by case_bool_decide.
Qed.

(** X22: on a dataset with at least one column and columns of one length,
    [fillna] with the method ['default_value'] and a default that is not
    null, over requested columns that exist (or over all columns),
    completes; in each target column every null is replaced by the default
    and every other cell is kept, so no null is left there, and the other
    columns are untouched. *)
Theorem fillna_default_value (dataset : gmap string (list value))
    (chaves columns : list string) (n : nat) (default_value : value) :
  keys_of dataset chaves → chaves ≠ [] → rectangular dataset n →
  NoDup columns → (∀ c, c ∈ columns → is_Some (dataset !! c)) →
  is_none default_value = false →
  let colunas := _get_target_columns chaves columns in
  ∃ novo,
    fillna dataset chaves columns "default_value" default_value
    = (novo, Return ())
    ∧ (∀ c, c ∉ colunas → novo !! c = dataset !! c)
    ∧ (∀ c, c ∈ colunas →
            novo !! c = preencher default_value <$> dataset !! c)
    ∧ (∀ c col, c ∈ colunas → novo !! c = Some col → VNone ∉ col).
Proof.
  intros Hkeys Hne Hrect Hnd Hcols Hdef colunas.
  destruct (fillna_loop_spec "default_value" default_value
              (λ _, default_value) colunas dataset) as (novo & Hrun & Hlook).
  { by eapply target_columns_NoDup. }
  { by apply target_columns_present. }
  { done. }
  exists novo. split; [|split; [|split]].
  - unfold fillna.
    by rewrite (init_rectangular dataset n (keys_of_nonempty _ _ Hkeys Hne) Hrect).
  - intros c Hc. by rewrite Hlook, decide_False.
  - intros c Hc. rewrite Hlook, decide_True by done. by rewrite Hdef.
  - intros c col Hc. rewrite Hlook, decide_True by done. rewrite Hdef.
    destruct (dataset !! c) as [col0|]; [|done]. intros [= <-].
    unfold preencher. intros (v & Hv & _)%list_elem_of_fmap.
    destruct (is_none v) eqn:Hnn; [by rewrite <- Hv in Hdef|].
    by rewrite <- Hv in Hnn.
Qed.

Lemma fillna_default_value_witness :
  let dataset : gmap string (list value) :=
    {["a" := [VInt 1; VNone; VInt 3]; "b" := [VStr "x"; VStr "y"; VNone]]} in
  let colunas := _get_target_columns ["a"; "b"] ["b"] in
  ∃ novo,
    fillna dataset ["a"; "b"] ["b"] "default_value" (VStr "?")
    = (novo, Return ())
    ∧ (∀ c, c ∉ colunas → novo !! c = dataset !! c)
    ∧ (∀ c, c ∈ colunas →
            novo !! c = preencher (VStr "?") <$> dataset !! c)
    ∧ (∀ c col, c ∈ colunas → novo !! c = Some col → VNone ∉ col).
Proof.
  apply (fillna_default_value
           {["a" := [VInt 1; VNone; VInt 3]; "b" := [VStr "x"; VStr "y"; VNone]]}
           ["a"; "b"] ["b"] 3 (VStr "?")).
  - apply example_keys.
  - discriminate.
  - apply example_rectangular.
  - apply (bool_decide_unpack _). reflexivity.
  - intros c ->%list_elem_of_singleton. by eexists.
  - reflexivity.
Defined.
End fillna_facts.

Section fillna_methods.
Import Statistics MissingValueProcessor.

Lemma preencher_no_null (valor : value) (valores : list value) :
  VNone ∉ valores → preencher valor valores = valores.
Proof.
  intros Hnone. unfold preencher. induction valores as [|v vs IH]; [done|].
  apply not_elem_of_cons in Hnone as [Hv Hvs]. cbn. rewrite (IH Hvs).
  by destruct v.
Qed.

Lemma fillna_loop_median (colunas : list string) (default_value : value)
    (dataset : gmap string (list value)) :
  (fillna_loop colunas "median" default_value dataset).1 = dataset
  ∧ ((fillna_loop colunas "median" default_value dataset).2 = Return () →
     ∀ c col, c ∈ colunas → dataset !! c = Some col → VNone ∉ col).
Proof.
  induction colunas as [|c cs [IH1 IH2]].
  - split; [done|]. intros _ c col Hc. by apply not_elem_of_nil in Hc.
  - cbn [fillna_loop].
    change (valor_preenchimento dataset "median" default_value c)
      with (median dataset c).
    destruct (median dataset c) as [m|e] eqn:Hm; [|done].
    assert (Hclean : ∀ col, dataset !! c = Some col → VNone ∉ col).
    { intros col Hcol. by eapply median_returns_no_null. }
    assert (Hrest : ∀ c' col, c' ∈ c :: cs → dataset !! c' = Some col →
                              c' = c ∨ c' ∈ cs).
    { intros c' col Hc' _. by apply elem_of_cons in Hc'. }
    destruct (negb (is_none m)).
    + unfold getitem. destruct (dataset !! c) as [col|] eqn:Hcol; [|done].
      cbn [lift]. rewrite (preencher_no_null m col (Hclean col eq_refl)).
      rewrite insert_id by done. split; [done|].
      intros Hret c' col' Hc' Hcol'.
      destruct (Hrest c' col' Hc' Hcol') as [->|Hin];
        [apply Hclean; congruence|].
      by apply (IH2 Hret c').
    + split; [done|]. intros Hret c' col' Hc' Hcol'.
      destruct (Hrest c' col' Hc' Hcol') as [->|Hin]; [by apply Hclean|].
      by apply (IH2 Hret c').
Qed.

(** X23: [fillna] with the method ['median'] never changes the dataset,
    whatever the columns and whether it completes or raises; and when it
    completes, no target column had a null to fill. *)
Theorem fillna_median_never_fills (dataset : gmap string (list value))
    (chaves columns : list string) (default_value : value) :
  (fillna dataset chaves columns "median" default_value).1 = dataset
  ∧ ((fillna dataset chaves columns "median" default_value).2 = Return () →
     ∀ c col, c ∈ _get_target_columns chaves columns →
              dataset !! c = Some col → VNone ∉ col).
Proof.
  unfold fillna.
  destruct (lift (__init__ (RDict (RList <$> dataset)))); [|done].
  apply fillna_loop_median.
Qed.

Lemma fillna_median_never_fills_witness :
  let dataset : gmap string (list value) :=
    {["a" := [VInt 1; VInt 4; VInt 3]; "b" := [VStr "x"; VStr "y"; VNone]]} in
  (fillna dataset ["a"; "b"] ["a"] "median" (VInt 0)).1 = dataset
  ∧ ∀ c col, c ∈ _get_target_columns ["a"; "b"] ["a"] →
             dataset !! c = Some col → VNone ∉ col.
Proof.
  intros dataset.
  destruct (fillna_median_never_fills dataset ["a"; "b"] ["a"] (VInt 0))
    as [Hsame Hclean].
  split; [exact Hsame|]. apply Hclean. reflexivity.
Defined.

(** X24: with a method other than ['mean'], ['median'], ['mode'] and
    ['default_value'], [fillna] raises ValueError and leaves the dataset as
    it was, whatever the columns asked for: either the dataset is rejected
    by [Statistics] (empty, or columns of different lengths), or the first
    target column meets the unsupported method. *)
Theorem fillna_unsupported_method (dataset : gmap string (list value))
    (chaves columns : list string) (method : string) (default_value : value) :
  keys_of dataset chaves →
  method ∉ ["mean"; "median"; "mode"; "default_value"] →
  fillna dataset chaves columns method default_value
  = (dataset, Throw (Err ValueError)).
Proof.
  intros Hkeys Hmethod. unfold fillna.
  destruct (init_lists dataset) as [->|[-> Hne]]; [done|]. cbn [lift].
  assert (Hcols : _get_target_columns chaves columns ≠ []).
  { unfold _get_target_columns. case_bool_decide as Hc; [|done].
    intros ->. by apply Hne, keys_of_empty. }
  destruct (_get_target_columns chaves columns) as [|c cs]; [done|].
  cbn [fillna_loop]. unfold valor_preenchimento.
  repeat (apply not_elem_of_cons in Hmethod as [?%String.eqb_neq Hmethod]).
  by repeat match goal with H : String.eqb _ _ = false |- _ => rewrite H; clear H end.
Qed.

Lemma fillna_unsupported_method_witness :
  let dataset : gmap string (list value) :=
    {["a" := [VInt 1; VNone; VInt 3]; "b" := [VStr "x"; VStr "y"; VNone]]} in
  fillna dataset ["a"; "b"] ["b"] "max" (VInt 0)
  = (dataset, Throw (Err ValueError)).
Proof.
  apply (fillna_unsupported_method
           {["a" := [VInt 1; VNone; VInt 3]; "b" := [VStr "x"; VStr "y"; VNone]]}
           ["a"; "b"] ["b"] "max" (VInt 0)).
  - apply example_keys.
  - apply (bool_decide_unpack _). reflexivity.
Defined.


Lemma mode_lookup (d1 d2 : gmap string (list value)) (column : string) :
  d1 !! column = d2 !! column → mode d1 column = mode d2 column.
Proof.
  intros H.
  unfold mode, absolute_frequency, _validate_column, getitem. rewrite H.
  by destruct (decide (is_Some (d2 !! column))).
Qed.



(** On a dataset with at least one column and columns of one length,
    [fillna] with the method ['mode'] over distinct target columns that
    each have a non-null cell completes; a target column is filled with
    the first value [mode] returns for it, and is left as it was when
    that value is null; the other columns are kept. *)
Theorem fillna_mode (dataset : gmap string (list value))
    (chaves columns : list string) (n : nat) (default_value : value) :
  keys_of dataset chaves → chaves ≠ [] → rectangular dataset n →
  NoDup columns →
  let colunas := _get_target_columns chaves columns in
  (∀ c, c ∈ colunas →
        ∃ col, dataset !! c = Some col ∧ Exists (λ v, is_none v = false) col) →
  ∃ novo,
    fillna dataset chaves columns "mode" default_value = (novo, Return ())
    ∧ (∀ c, c ∉ colunas → novo !! c = dataset !! c)
    ∧ (∀ c col, c ∈ colunas → dataset !! c = Some col →
         ∃ moda modas,
           mode dataset c = Ok (moda :: modas)
           ∧ novo !! c
             = Some (if is_none moda then col else preencher moda col)).
Proof.
  intros Hkeys Hne Hrect Hnd colunas Hcols.
  set (val := λ c, match mode dataset c with
                   | Ok (moda :: _) => moda
                   | _ => VNone
                   end).
  assert (Hmode : ∀ c col, c ∈ colunas → dataset !! c = Some col →
                           ∃ moda modas, mode dataset c = Ok (moda :: modas)).
  { intros c col Hc Hcol. destruct (Hcols c Hc) as (col' & Hcol' & Hex).
    destruct (mode_spec dataset c col' Hcol' Hex)
      as (frequencia & m & _ & Hin & _ & ->).
    apply list_elem_of_fmap in Hin as ([k m'] & -> & Hkm).
    assert (Hk : k ∈ (filter (λ kv : value * Z, bool_decide (kv.2 = m'))
                             frequencia).*1).
    { apply list_elem_of_fmap. exists (k, m'). split; [done|].
      apply list_elem_of_filter. split; [|done]. by apply bool_decide_pack. }
    destruct ((filter _ frequencia).*1) as [|moda modas]; [|by eauto].
    by apply not_elem_of_nil in Hk. }
  destruct (fillna_loop_spec "mode" default_value val colunas dataset)
    as (novo & Hrun & Hlook).
  { by eapply target_columns_NoDup. }
  { intros c Hc. destruct (Hcols c Hc) as (col & -> & _). by eexists. }
  { intros c d' Hc Hd'.
    change (valor_preenchimento d' "mode" default_value c)
      with (modas <~ lift (mode d' c);;
            Return (match modas with [] => VNone | moda :: _ => moda end)).
    rewrite (mode_lookup d' dataset c Hd'). unfold val.
    destruct (Hcols c Hc) as (col & Hcol & _).
    by destruct (Hmode c col Hc Hcol) as (moda & modas & ->). }
  exists novo. split; [|split].
  - unfold fillna.
    by rewrite (init_rectangular dataset n (keys_of_nonempty _ _ Hkeys Hne) Hrect).
  - intros c Hc. by rewrite Hlook, decide_False.
  - intros c col Hc Hcol. rewrite Hlook, decide_True by done.
    destruct (Hmode c col Hc Hcol) as (moda & modas & Hm).
    exists moda, modas. split; [done|]. unfold val. by rewrite Hm, Hcol.
Qed.

Lemma fillna_mode_witness :
  let dataset : gmap string (list value) :=
    {["a" := [VInt 1; VNone; VInt 3]; "b" := [VStr "x"; VStr "y"; VNone]]} in
  let colunas := _get_target_columns ["a"; "b"] ["b"] in
  ∃ novo,
    fillna dataset ["a"; "b"] ["b"] "mode" (VInt 0) = (novo, Return ())
    ∧ (∀ c, c ∉ colunas → novo !! c = dataset !! c)
    ∧ (∀ c col, c ∈ colunas → dataset !! c = Some col →
         ∃ moda modas,
           mode dataset c = Ok (moda :: modas)
           ∧ novo !! c
             = Some (if is_none moda then col else preencher moda col)).
Proof.
  apply (fillna_mode
           {["a" := [VInt 1; VNone; VInt 3]; "b" := [VStr "x"; VStr "y"; VNone]]}
           ["a"; "b"] ["b"] 3 (VInt 0)).
  - apply example_keys.
  - discriminate.
  - apply example_rectangular.
  - apply (bool_decide_unpack _). reflexivity.
  - intros c ->%list_elem_of_singleton. eexists. split; [reflexivity|].
    by apply Exists_cons_hd.
Defined.
End fillna_methods.

(** ** The facade *)

Section facade.
Import Preprocessing.

Lemma shape_loop_ok (dataset : gmap string (list value))
    (chaves : list string) (n : nat) :
  (∀ c, c ∈ chaves → ∃ col, dataset !! c = Some col ∧ length col = n) →
  shape_loop dataset chaves n = Return ().
Proof.
  induction chaves as [|c cs IH]; intros Hall; [done|].
  destruct (Hall c) as (col & Hcol & Hlen); [apply list_elem_of_here|].
  cbn [shape_loop]. unfold getitem. rewrite Hcol. cbn [lift obind].
  rewrite bool_decide_false by (by intros ?). apply IH.
  intros c' Hc'. apply Hall. by apply list_elem_of_further.
Qed.

Lemma shape_loop_mismatch (dataset : gmap string (list value))
    (chaves : list string) (n : nat) (c : string) (col : list value) :
  (∀ c, c ∈ chaves → is_Some (dataset !! c)) →
  c ∈ chaves → dataset !! c = Some col → length col ≠ n →
  shape_loop dataset chaves n = Throw (Err ValueError).
Proof.
  induction chaves as [|c' cs IH]; intros Hall Hc Hcol Hlen.
  - by apply not_elem_of_nil in Hc.
  - destruct (Hall c') as [col' Hcol']; [apply list_elem_of_here|].
    cbn [shape_loop]. unfold getitem. rewrite Hcol'. cbn [lift obind].
    case_bool_decide as Hlen'; [done|].
    apply elem_of_cons in Hc as [->|Hc].
    + rewrite Hcol in Hcol'. injection Hcol' as <-. by destruct Hlen'.
    + apply IH; [|done..]. intros k Hk. apply Hall.
      by apply list_elem_of_further.
Qed.

(** X26: building the facade on a dataset with no column raises
    StopIteration (the shape check looks for a first column before
    [Statistics] can report the empty dataset); on columns of different
    lengths it raises ValueError; on any other dataset it succeeds, and
    the processor of missing values holds the facade's own dictionary. *)
Theorem preprocessing_init (dataset : gmap string (list value))
    (chaves : list string) :
  keys_of dataset chaves →
  (chaves = [] → __init__ dataset chaves = Throw StopIteration)
  ∧ (ragged dataset → __init__ dataset chaves = Throw (Err ValueError))
  ∧ (∀ n, chaves ≠ [] → rectangular dataset n →
          __init__ dataset chaves
          = Return {| dataset := dataset; chaves := chaves;
                      missing_values := Shared |}).
Proof.
  intros Hkeys. pose proof Hkeys as [Hnd Hin]. split; [by intros ->|]. split.
  - intros (k1 & k2 & col1 & col2 & H1 & H2 & Hlen).
    destruct chaves as [|primeira resto] eqn:Hch.
    { assert (k1 ∈ @nil string) as Hk by (apply Hin; eauto).
      by apply not_elem_of_nil in Hk. }
    rewrite <- Hch in *. unfold __init__, _validate_dataset_shape.
    rewrite Hch at 1.
    destruct (proj1 (Hin primeira)) as [col Hcol].
    { rewrite Hch. apply list_elem_of_here. }
    unfold getitem at 1. rewrite Hcol. cbn [lift obind].
    assert (Hraise : shape_loop dataset chaves (length col)
                     = Throw (Err ValueError)).
    { destruct (decide (length col1 = length col)) as [Heq|Hne].
      - apply (shape_loop_mismatch dataset chaves _ k2 col2);
          [by intros; apply Hin|apply Hin; eauto|done|congruence].
      - apply (shape_loop_mismatch dataset chaves _ k1 col1);
          [by intros; apply Hin|apply Hin; eauto|done|done]. }
    by rewrite Hraise.
  - intros n Hne Hrect. unfold __init__, _validate_dataset_shape.
    destruct chaves as [|primeira resto] eqn:Hch; [done|].
    rewrite <- Hch in *.
    destruct (proj1 (Hin primeira)) as [col Hcol].
    { rewrite Hch. apply list_elem_of_here. }
    unfold getitem at 1. rewrite Hcol. cbn [lift obind].
    rewrite shape_loop_ok.
    + cbn [obind].
      by rewrite (init_rectangular dataset n
                    (keys_of_nonempty _ _ Hkeys Hne) Hrect).
    + intros c [colc Hc]%Hin. exists colc. split; [done|].
      by rewrite (Hrect _ _ Hc), (Hrect _ _ Hcol).
Qed.

Lemma preprocessing_init_witness :
  let dataset : gmap string (list value) :=
    {["a" := [VInt 1; VNone; VInt 3]; "b" := [VStr "x"; VStr "y"; VNone]]} in
  (["a"; "b"] = [] → __init__ dataset ["a"; "b"] = Throw StopIteration)
  ∧ (ragged dataset → __init__ dataset ["a"; "b"] = Throw (Err ValueError))
  ∧ (∀ n, ["a"; "b"] ≠ [] → rectangular dataset n →
          __init__ dataset ["a"; "b"]
          = Return {| dataset := dataset; chaves := ["a"; "b"];
                      missing_values := Shared |}).
Proof.
  apply (preprocessing_init
           {["a" := [VInt 1; VNone; VInt 3]; "b" := [VStr "x"; VStr "y"; VNone]]}
           ["a"; "b"]).
  apply example_keys.
Defined.

Lemma step_detached (self : t) (c : call) (proprio : gmap string (list value)) :
  missing_values self = Own proprio →
  dataset (step self c).1 = dataset self
  ∧ ∃ proprio', missing_values (step self c).1 = Own proprio'.
Proof.
  intros Hown. destruct c as [columns method default_value|columns];
    cbn [step]; unfold fillna, dropna.
  - destruct (MissingValueProcessor.fillna _ _ _ _ _) as [novo r].
    rewrite Hown. cbn. eauto.
  - destruct (MissingValueProcessor.dropna _ _ _) as [novo [[]|e]]; cbn; eauto.
Qed.

Lemma chain_detached (calls : list call) (self : t)
    (proprio : gmap string (list value)) :
  missing_values self = Own proprio →
  dataset (chain self calls).1 = dataset self
  ∧ ∃ proprio', missing_values (chain self calls).1 = Own proprio'.
Proof.
  revert self proprio. induction calls as [|c calls IH]; intros self proprio Hown.
  - cbn. eauto.
  - cbn [chain].
    destruct (step_detached self c proprio Hown) as (Hd & proprio' & Hown').
    destruct (step self c) as [self' [[]|e]]; cbn [fst] in *.
    + destruct (IH self' proprio' Hown') as [Hd' Hown''].
      by rewrite Hd' , Hd.
    + eauto.
Qed.

(** X27: a [dropna] that succeeds through the facade binds the processor
    of missing values to the rows kept and leaves the facade's own
    dictionary, the one the scaler, the encoder and the statistics read,
    with all its rows; from then on no chain of [fillna] and [dropna]
    calls, completed or interrupted, changes that dictionary. *)
Theorem facade_dropna_detaches (self self1 : t) (columns : list string)
    (calls : list call) :
  dropna self columns = (self1, Return ()) →
  MissingValueProcessor.notna (processor_dataset self) (chaves self) columns
  = Return (processor_dataset self1)
  ∧ dataset (chain self1 calls).1 = dataset self
  ∧ missing_values (chain self1 calls).1 ≠ Shared.
Proof.
  unfold dropna, MissingValueProcessor.dropna.
  destruct (MissingValueProcessor.notna _ _ _) as [novo|e]; [|done].
  intros [= <-]. split; [done|].
  destruct (chain_detached calls
              {| dataset := dataset self; chaves := chaves self;
                 missing_values := Own novo |} novo eq_refl)
    as (Hd & proprio' & Hown).
  split; [done|]. by rewrite Hown.
Qed.

Lemma facade_dropna_detaches_witness :
  let dataset0 : gmap string (list value) :=
    {["a" := [VInt 1; VNone; VInt 3]; "b" := [VStr "x"; VStr "y"; VNone]]} in
  let self := {| dataset := dataset0; chaves := ["a"; "b"];
                 missing_values := Shared |} in
  let self1 := {| dataset := dataset0; chaves := ["a"; "b"];
                  missing_values :=
                    Own {["a" := [VInt 1]; "b" := [VStr "x"]]} |} in
  let calls := [Fillna [] "default_value" (VInt 0); Dropna ["a"]] in
  MissingValueProcessor.notna (processor_dataset self) (chaves self) []
  = Return (processor_dataset self1)
  ∧ dataset (chain self1 calls).1 = dataset self
  ∧ missing_values (chain self1 calls).1 ≠ Shared.
Proof.
  intros dataset0 self self1 calls.
  apply (facade_dropna_detaches self self1 [] calls).
  vm_compute. reflexivity.
Defined.
End facade.

(** ** Standard scaling *)

Section standard_scaler_facts.
Import Statistics MissingValueProcessor.
Variable pow_half : Q → Q.

Lemma numericos_nil (valores : list value) :
  filter (fun v => is_numeric v && negb (is_none v)) valores = []
  ↔ existsb is_numeric valores = false.
Proof.
  split.
  - intros Hnil. destruct (existsb is_numeric valores) eqn:Hex; [|done].
    apply existsb_exists in Hex as (v & Hv%list_elem_of_In & Hn).
    assert (v ∈ filter (fun v => is_numeric v && negb (is_none v)) valores)
      as Hin by (by apply elem_of_numericos).
    rewrite Hnil in Hin. by apply not_elem_of_nil in Hin.
  - intros Hex.
    destruct (filter _ valores) as [|x l] eqn:Hf; [done|].
    assert (x ∈ x :: l) as Hx by apply list_elem_of_here.
    rewrite <- Hf in Hx. apply elem_of_numericos in Hx as [Hx Hn].
    assert (existsb is_numeric valores = true) as Ht; [|congruence].
    apply existsb_exists. exists x. by rewrite <- list_elem_of_In.
Qed.


Lemma standard_column_skip (metodos : gmap string (list value))
    (c : string) (col : list value) :
  existsb is_numeric col = false →
  standard_column pow_half metodos c col = Ok None.
Proof.
  intros Hex%numericos_nil. unfold standard_column.
  by rewrite bool_decide_true.
Qed.



(** The statistics [standard_scaler] works with. *)
Lemma standard_scaler_unfold (dataset : gmap string (list value))
    (chaves columns : list string) (n : nat) :
  keys_of dataset chaves → chaves ≠ [] → rectangular dataset n →
  ∃ filtrados,
    standard_scaler pow_half dataset chaves columns
    = standard_loop pow_half filtrados (_get_target_columns chaves columns)
        dataset
    ∧ ∀ c, filtrados !! c
           = (λ col, rows_at col (complete_rows dataset chaves n))
               <$> dataset !! c.
Proof.
  intros Hkeys Hne Hrect.
  destruct (notna_facts dataset chaves [] n Hkeys Hne Hrect)
    as (filtrados & Hnotna & Hlook & Hkeys' & Hrect' & _).
  { intros c Hc. by apply not_elem_of_nil in Hc. }
  exists filtrados. split; [|exact Hlook].
  unfold standard_scaler. rewrite Hnotna.
  by rewrite (init_rectangular filtrados _
                (keys_of_nonempty _ _ Hkeys' Hne) Hrect').
Qed.

Lemma standard_loop_no_row (metodos dataset : gmap string (list value))
    (colunas : list string) :
  (∀ c, metodos !! c = (λ _, []) <$> dataset !! c) →
  (∀ c, c ∈ colunas → is_Some (dataset !! c)) →
  standard_loop pow_half metodos colunas dataset
  = (dataset, if existsb (has_number dataset) colunas
              then Throw (Err ValueError) else Return ()).
Proof.
  intros Hmet. induction colunas as [|c cs IH]; intros Hall; [done|].
  destruct (Hall c) as [col Hcol]; [apply list_elem_of_here|].
  cbn [standard_loop existsb]. unfold getitem, has_number at 1.
  rewrite Hcol. cbn [bind].
  destruct (existsb is_numeric col) eqn:Hex.
  - unfold standard_column.
    rewrite bool_decide_false by (rewrite numericos_nil; by rewrite Hex).
    rewrite (mean_no_valid metodos c []); [done| |done].
    by rewrite Hmet, Hcol.
  - rewrite (standard_column_skip _ _ _ Hex). cbn [orb]. apply IH.
    intros k Hk. apply Hall. by apply list_elem_of_further.
Qed.

(** X28: on a dataset with at least one column and columns of one length
    in which every row has a null in some column, [standard_scaler]
    changes nothing: there is no row to take the mean from, so it raises
    ValueError as soon as a target column has a number, even a column
    without nulls, and it returns normally when no target column has
    one. *)
Theorem standard_scaler_no_complete_row
    (dataset : gmap string (list value)) (chaves columns : list string)
    (n : nat) :
  keys_of dataset chaves → chaves ≠ [] → rectangular dataset n →
  (∀ c, c ∈ columns → is_Some (dataset !! c)) →
  complete_rows dataset chaves n = [] →
  standard_scaler pow_half dataset chaves columns
  = (dataset,
     if existsb (has_number dataset) (_get_target_columns chaves columns)
     then Throw (Err ValueError) else Return ()).
Proof.
  intros Hkeys Hne Hrect Hcols Hnone.
  destruct (standard_scaler_unfold dataset chaves columns n Hkeys Hne Hrect)
    as (filtrados & -> & Hlook).
  apply standard_loop_no_row.
  - intros c. rewrite Hlook, Hnone. by destruct (dataset !! c).
  - by apply target_columns_present.
Qed.







End standard_scaler_facts.

Lemma two_columns_keys (a b : list value) :
  keys_of {["a" := a; "b" := b]} ["a"; "b"].
Proof.
  split; [apply (bool_decide_unpack _); reflexivity|]. intros k.
  rewrite !elem_of_cons, elem_of_nil. split.
  - intros [->|[->|[]]]; by eexists.
  - intros [col Hcol]. destruct (decide (k = "a")) as [->|Ha]; [by left|].
    destruct (decide (k = "b")) as [->|Hb]; [by right; left|].
    rewrite lookup_insert_ne, lookup_singleton_ne in Hcol by done. done.
Qed.

Lemma two_columns_cases (a b : list value) (P : string → list value → Prop) :
  P "a" a → P "b" b →
  ∀ k col, ({["a" := a; "b" := b]} : gmap string (list value)) !! k = Some col →
           P k col.
Proof.
  intros Ha Hb k col Hcol. destruct (decide (k = "a")) as [->|Hka].
  { rewrite lookup_insert_eq in Hcol. by injection Hcol as <-. }
  rewrite lookup_insert_ne in Hcol by done.
  destruct (decide (k = "b")) as [->|Hkb].
  { rewrite lookup_singleton_eq in Hcol. by injection Hcol as <-. }
  by rewrite lookup_singleton_ne in Hcol.
Qed.

Lemma standard_scaler_no_complete_row_witness :
  let dataset : gmap string (list value) :=
    {["a" := [VInt 1; VNone]; "b" := [VNone; VInt 5]]} in
  standard_scaler (λ x, x) dataset ["a"; "b"] ["b"]
  = (dataset,
     if existsb (has_number dataset)
          (MissingValueProcessor._get_target_columns ["a"; "b"] ["b"])
     then Throw (Err ValueError) else Return ()).
Proof.
  apply (standard_scaler_no_complete_row (λ x, x)
           {["a" := [VInt 1; VNone]; "b" := [VNone; VInt 5]]}
           ["a"; "b"] ["b"] 2).
  - apply two_columns_keys.
  - discriminate.
  - refine (two_columns_cases _ _ (λ _ col, length col = 2%nat) _ _); reflexivity.
  - intros c ->%list_elem_of_singleton. by eexists.
  - reflexivity.
Defined.


